(** * The command-line debugger's session orchestrator (class [Debugger])

    A shallow embedding of [Debugger] (the third unit of
    [src/pkg/commons-node/ScribeProcess.js]) and the properties of it that
    the specification states.

    The class is asynchronous JavaScript.  Every method is embedded as a
    program of the resumption monad [Async]: a program runs synchronously
    until its first [await], where it is suspended with its continuation;
    the continuation reads the fields of [this] again when it is resumed,
    so whatever ran in between is visible to it.  Awaiting a method of the
    class itself is sequencing ([≫=]); calling one without [await], as the
    event handlers call [closeSession], is [Detach].

    The collaborators the class only calls ([VsDebugSession], [ConsoleIO],
    [SourceFileCache]) are not modelled: every call made on them is recorded
    in a trace, and what their promises settle to is an input of the run.

    Numbers (thread ids, line numbers, exit codes, source references) are
    integers, [Z]; [null] and [undefined] are [None]. *)

From Stdlib Require Import Ascii.
From stdpp Require Import gmap strings list pretty.

Local Open Scope Z_scope.

(** ** Data of the debug protocol *)

Module DebugProtocol.

(** [DebugProtocol.Thread] *)
Record Thread := { thd_id : Z; thd_name : string }.

(** [DebugProtocol.Source]: every field is optional. *)
Record Source := {
  src_path : option string;
  src_sourceReference : option Z;
  src_name : option string;
}.

(** [DebugProtocol.StackFrame], the fields the class reads. *)
Record StackFrame := {
  frame_line : Z;
  frame_column : Z;
  frame_name : string;
  frame_source : option Source;
}.

(** The events of the five streams [openSession] subscribes to. *)
Inductive Event :=
| OutputEvent (output : string)
| ContinuedEvent (threadId : Z)
| StoppedEvent (threadId : option Z)
| ExitedEvent (exitCode : Z)
| TerminatedEvent.

Inductive Stream :=
| OutputEvents | ContinuedEvents | StopEvents
| ExitedDebugeeEvents | TerminateDebugeeEvents.

Definition stream_of (e : Event) : Stream :=
  match e with
  | OutputEvent _ => OutputEvents
  | ContinuedEvent _ => ContinuedEvents
  | StoppedEvent _ => StopEvents
  | ExitedEvent _ => ExitedDebugeeEvents
  | TerminatedEvent => TerminateDebugeeEvents
  end.

End DebugProtocol.
Export DebugProtocol.

#[global] Instance Thread_eq_dec : EqDecision Thread.
Proof. solve_decision. Defined.
#[global] Instance Source_eq_dec : EqDecision Source.
Proof. solve_decision. Defined.
#[global] Instance StackFrame_eq_dec : EqDecision StackFrame.
Proof. solve_decision. Defined.
#[global] Instance Event_eq_dec : EqDecision Event.
Proof. solve_decision. Defined.
#[global] Instance Stream_eq_dec : EqDecision Stream.
Proof. solve_decision. Defined.

(** ** The collaborators, as seen from the class *)

(** A [VsDebugSession] object is identified by the order of its construction. *)
Definition VsDebugSession := nat.

Record VSAdapterExecutableInfo := { command : string; args : list string }.
Definition LaunchRequestArguments := list (string * string).

#[global] Instance VSAdapterExecutableInfo_eq_dec : EqDecision VSAdapterExecutableInfo.
Proof. solve_decision. Defined.

(** The requests of [VsDebugSession] the class issues. *)
Inductive Request :=
| Initialize (adapterID pathFormat : string) (linesStartAt1 : bool)
| Launch (launchArgs : LaunchRequestArguments)
| Threads
| StackTrace (threadId : Z) (totalFrames : Z)
| StepIn (threadId : Z)
| Next (threadId : Z)
| SourceRequest (sourceReference : Z)
| Disconnect.

#[global] Instance Request_eq_dec : EqDecision Request.
Proof. solve_decision. Defined.

(** The promise-returning calls the class awaits: a request on a session, or
    a lookup in the [SourceFileCache]. *)
Inductive Call :=
| OnSession (s : VsDebugSession) (r : Request)
| GetFileDataBySourceReference (sourceReference : Z)
| GetFileDataByPath (path : string).

#[global] Instance Call_eq_dec : EqDecision Call.
Proof. solve_decision. Defined.

Inductive ConsoleCall :=
| Output (text : string)
| OutputLine (text : string)
| StartInput
| StopInput.

#[global] Instance ConsoleCall_eq_dec : EqDecision ConsoleCall.
Proof. solve_decision. Defined.

(** What is thrown.  [Error] and [AssertionError] carry the message the code
    gives them; [TypeError] is what destructuring a reply of another shape
    than its Flow type raises; [Failure] is a rejection by a collaborator. *)
Inductive JsError :=
| Error (message : string)
| AssertionError (message : string)
| TypeError
| Failure (reason : string).

#[global] Instance JsError_eq_dec : EqDecision JsError.
Proof. solve_decision. Defined.

(** The values the awaited promises resolve to. *)
Inductive Value :=
| VUndefined
| VCapabilities (supports : list string)
| VThreadsResponse (threads : list Thread)
| VStackTraceResponse (stackFrames : list StackFrame)
| VSourceResponse (content : string)
| VLines (lines : list string).

#[global] Instance Value_eq_dec : EqDecision Value.
Proof. solve_decision. Defined.

Inductive Reply :=
| Resolved (v : Value)
| Rejected (e : JsError).

#[global] Instance Reply_eq_dec : EqDecision Reply.
Proof. solve_decision. Defined.

(** Everything the class does to its collaborators, in the order it does it. *)
Inductive Interaction :=
| Construct (s : VsDebugSession) (adapterInfo : VSAdapterExecutableInfo)
| Subscribe (s : VsDebugSession) (st : Stream)
| Called (c : Call)
| Settle (c : Call) (r : Reply)
| Console (c : ConsoleCall)
| Flush.

#[global] Instance Interaction_eq_dec : EqDecision Interaction.
Proof. solve_decision. Defined.

(** ** The fields of the class *)

Record Debugger := {
  _capabilities : Value;
  _debugSession : option VsDebugSession;
  _activeThread : option Z;
  _threads : gmap Z string;
}.

(** The object the constructor leaves: [_threads] is initialised to an empty
    [Map], the session and the active thread are unset. *)
Definition constructor : Debugger :=
  {| _capabilities := VUndefined; _debugSession := None;
     _activeThread := None; _threads := ∅ |}.

Definition set_capabilities (v : Value) (d : Debugger) : Debugger :=
  {| _capabilities := v; _debugSession := _debugSession d;
     _activeThread := _activeThread d; _threads := _threads d |}.
Definition set_debugSession (s : option VsDebugSession) (d : Debugger) : Debugger :=
  {| _capabilities := _capabilities d; _debugSession := s;
     _activeThread := _activeThread d; _threads := _threads d |}.
Definition set_activeThread (t : option Z) (d : Debugger) : Debugger :=
  {| _capabilities := _capabilities d; _debugSession := _debugSession d;
     _activeThread := t; _threads := _threads d |}.
Definition set_threads (m : gmap Z string) (d : Debugger) : Debugger :=
  {| _capabilities := _capabilities d; _debugSession := _debugSession d;
     _activeThread := _activeThread d; _threads := m |}.

(** ** Asynchronous programs *)

(** [Await c k] makes the call [c] and suspends until its promise settles.
    [Detach t k] calls the async method [t] and drops its promise: [t] runs
    up to its first [await], then [k] goes on. *)
Inductive Async (A : Type) : Type :=
| Ret (a : A)
| Throw (e : JsError)
| This (k : Debugger → Async A)
| Assign (f : Debugger → Debugger) (k : Async A)
| Perform (i : Interaction) (k : Async A)
| New (adapterInfo : VSAdapterExecutableInfo) (k : VsDebugSession → Async A)
| Await (c : Call) (k : Reply → Async A)
| Detach (t : Async unit) (k : Async A).

Arguments Ret {A} a.
Arguments Throw {A} e.
Arguments This {A} k.
Arguments Assign {A} f k.
Arguments Perform {A} i k.
Arguments New {A} adapterInfo k.
Arguments Await {A} c k.
Arguments Detach {A} t k.

Fixpoint bind {A B : Type} (t : Async A) (f : A → Async B) : Async B :=
  match t with
  | Ret a => f a
  | Throw e => Throw e
  | This k => This (λ d, bind (k d) f)
  | Assign g k => Assign g (bind k f)
  | Perform i k => Perform i (bind k f)
  | New info k => New info (λ s, bind (k s) f)
  | Await c k => Await c (λ r, bind (k r) f)
  | Detach t' k => Detach t' (bind k f)
  end.

#[global] Instance Async_ret : MRet Async := @Ret.
#[global] Instance Async_bind : MBind Async := λ A B f t, bind t f.

(** The primitive statements. *)
Definition this : Async Debugger := This Ret.
Definition assign (f : Debugger → Debugger) : Async unit := Assign f (Ret tt).
Definition perform (i : Interaction) : Async unit := Perform i (Ret tt).
Definition new_VsDebugSession (info : VSAdapterExecutableInfo) : Async VsDebugSession :=
  New info Ret.
Definition detach (t : Async unit) : Async unit := Detach t (Ret tt).

(** [await p]: the value [p] resolves to; a rejection is thrown. *)
Definition await (c : Call) : Async Value :=
  Await c (λ r, match r with Resolved v => Ret v | Rejected e => Throw e end).

(** The state of the run: the object, the trace of what it did, the number
    of sessions constructed so far, the suspended continuations of the
    detached calls, and the errors their promises were rejected with. *)
Record World := {
  debugger : Debugger;
  trace : list Interaction;
  constructed : nat;
  pending : list (Call * (Reply → Async unit));
  rejections : list JsError;
}.

Definition with_debugger (f : Debugger → Debugger) (w : World) : World :=
  {| debugger := f (debugger w); trace := trace w; constructed := constructed w;
     pending := pending w; rejections := rejections w |}.
Definition record (i : Interaction) (w : World) : World :=
  {| debugger := debugger w; trace := trace w ++ [i]; constructed := constructed w;
     pending := pending w; rejections := rejections w |}.
Definition allocate (w : World) : World :=
  {| debugger := debugger w; trace := trace w; constructed := S (constructed w);
     pending := pending w; rejections := rejections w |}.
Definition suspend (c : Call) (k : Reply → Async unit) (w : World) : World :=
  {| debugger := debugger w; trace := trace w; constructed := constructed w;
     pending := pending w ++ [(c, k)]; rejections := rejections w |}.
Definition reject (e : JsError) (w : World) : World :=
  {| debugger := debugger w; trace := trace w; constructed := constructed w;
     pending := pending w; rejections := rejections w ++ [e] |}.
Definition with_pending (p : list (Call * (Reply → Async unit))) (w : World) : World :=
  {| debugger := debugger w; trace := trace w; constructed := constructed w;
     pending := p; rejections := rejections w |}.

Inductive Outcome (A : Type) :=
| Returned (a : A)
| Thrown (e : JsError).
Arguments Returned {A} a.
Arguments Thrown {A} e.

Inductive Status (A : Type) :=
| Settled (o : Outcome A)
| Blocked (c : Call) (k : Reply → Async A).
Arguments Settled {A} o.
Arguments Blocked {A} c k.

(** [exec t w] runs [t] until it returns, throws, or reaches an [await]. *)
Fixpoint exec {A : Type} (t : Async A) (w : World) : World * Status A :=
  match t with
  | Ret a => (w, Settled (Returned a))
  | Throw e => (w, Settled (Thrown e))
  | This k => exec (k (debugger w)) w
  | Assign f k => exec k (with_debugger f w)
  | Perform i k => exec k (record i w)
  | New info k =>
      exec (k (constructed w)) (allocate (record (Construct (constructed w) info) w))
  | Await c k => (record (Called c) w, Blocked c k)
  | Detach t' k =>
      match exec t' w with
      | (w', Settled (Returned _)) => exec k w'
      | (w', Settled (Thrown e)) => exec k (reject e w')
      | (w', Blocked c k') => exec k (suspend c k' w')
      end
  end.

(** [resume rs x]: the promises a blocked program awaits settle to [rs], one
    after the other, and nothing else runs in between. *)
Fixpoint resume {A : Type} (rs : list Reply) (x : World * Status A) : World * Status A :=
  match rs, x with
  | r :: rs', (w, Blocked c k) => resume rs' (exec (k r) (record (Settle c r) w))
  | _, _ => x
  end.

Definition run {A : Type} (t : Async A) (rs : list Reply) (w : World) : World * Status A :=
  resume rs (exec t w).

(** ** [Array.prototype.slice] and [Math.min] on integers *)

Definition Array_slice {A : Type} (l : list A) (start end_ : Z) : list A :=
  let len := Z.of_nat (length l) in
  let k := if start <? 0 then Z.max (len + start) 0 else Z.min start len in
  let final := if end_ <? 0 then Z.max (len + end_) 0 else Z.min end_ len in
  take (Z.to_nat (final - k)) (drop (Z.to_nat k) l).

(** ** The methods of [Debugger] *)

Definition as_lines (v : Value) : Async (list string) :=
  match v with VLines lines => Ret lines | _ => Throw TypeError end.

Definition getSourceLines (source : Source) (start length : Z) : Async (list string) :=
  lines ← match src_sourceReference source with
          | Some sourceReference =>
              if bool_decide (sourceReference ≠ 0) then
                await (GetFileDataBySourceReference sourceReference) ≫= as_lines
              else
                match src_path source with
                | Some path => await (GetFileDataByPath path) ≫= as_lines
                | None => Ret []
                end
          | None =>
              match src_path source with
              | Some path => await (GetFileDataByPath path) ≫= as_lines
              | None => Ret []
              end
          end;
  if bool_decide (Z.of_nat (List.length lines) ≤ start) then Ret []
  else
    let end_ := Z.min (start + length) (Z.of_nat (List.length lines)) in
    Ret (Array_slice lines start end_).

Definition as_threads (v : Value) : Async (list Thread) :=
  match v with VThreadsResponse threads => Ret threads | _ => Throw TypeError end.

Definition as_stackFrames (v : Value) : Async (list StackFrame) :=
  match v with VStackTraceResponse stackFrames => Ret stackFrames | _ => Throw TypeError end.

Definition as_content (v : Value) : Async string :=
  match v with VSourceResponse content => Ret content | _ => Throw TypeError end.

(** [new Map(entries)]: the entries are set one after the other, so of two
    entries with one key the later one stays. *)
Definition Map_of (entries : list (Z * string)) : gmap Z string :=
  foldl (λ m e, <[e.1 := e.2]> m) ∅ entries.

(** A number in a template literal; the numbers here are integers. *)
Definition Number_toString (n : Z) : string := pretty n.

(** Modelled from the spec: [nuclide-commons/nuclideUri] is not among the
    sources; [nuclideUri.split(nuclideUri.resolve(path)).pop()] is what the
    spec calls the last path segment of [source.path], the text after the
    last [/]. *)
Fixpoint last_segment_from (segment path : string) : string :=
  match path with
  | EmptyString => segment
  | String c rest =>
      if Ascii.eqb c "/"%char then last_segment_from "" rest
      else last_segment_from (segment +:+ String c "") rest
  end.

Definition nuclideUri_lastSegment (path : string) : string :=
  last_segment_from "" path.

Definition _ensureDebugSession : Async VsDebugSession :=
  d ← this;
  match _debugSession d with
  | None => Throw (Error "There is no active debugging session.")
  | Some session => Ret session
  end.

Definition getThreads : Async (gmap Z string) :=
  _ensureDebugSession;;
  d ← this;
  Ret (_threads d).

Definition getActiveThread : Async (option Z) :=
  _ensureDebugSession;;
  d ← this;
  Ret (_activeThread d).

(** [frameCount] is [None] when the argument is left out: it defaults to 0. *)
Definition getStackTrace (thread : Z) (frameCount : option Z) : Async (list StackFrame) :=
  session ← _ensureDebugSession;
  await (OnSession session (StackTrace thread (default 0 frameCount))) ≫= as_stackFrames.

Definition stepIn : Async unit :=
  d ← this;
  match _activeThread d with
  | None => Throw (Error "There is no active thread to step into.")
  | Some activeThread =>
      session ← _ensureDebugSession;
      await (OnSession session (StepIn activeThread));;
      Ret tt
  end.

Definition stepOver : Async unit :=
  d ← this;
  match _activeThread d with
  | None => Throw (Error "There is no active thread to step through.")
  | Some activeThread =>
      session ← _ensureDebugSession;
      await (OnSession session (Next activeThread));;
      Ret tt
  end.

Definition _cacheThreads : Async unit :=
  d ← this;
  match _debugSession d with
  | None => Throw (AssertionError "_cacheThreads called without session")
  | Some session =>
      threads ← await (OnSession session Threads) ≫= as_threads;
      assign (set_threads (Map_of ((λ thd, (thd_id thd, thd_name thd)) <$> threads)));;
      assign (set_activeThread None);;
      if bool_decide (0 < Z.of_nat (List.length threads)) then
        match threads !! 0%nat with
        | Some thd => assign (set_activeThread (Some (thd_id thd)))
        | None => Throw TypeError
        end
      else Ret tt
  end.

Definition openSession (adapterInfo : VSAdapterExecutableInfo)
    (launchArgs : LaunchRequestArguments) : Async unit :=
  session ← new_VsDebugSession adapterInfo;
  assign (set_debugSession (Some session));;
  capabilities ← await (OnSession session (Initialize "fbdb" "path" false));
  assign (set_capabilities capabilities);;
  perform (Subscribe session OutputEvents);;
  perform (Subscribe session ContinuedEvents);;
  perform (Subscribe session StopEvents);;
  perform (Subscribe session ExitedDebugeeEvents);;
  perform (Subscribe session TerminateDebugeeEvents);;
  await (OnSession session (Launch launchArgs));;
  _cacheThreads.

Definition closeSession : Async unit :=
  d ← this;
  match _debugSession d with
  | None => Ret tt
  | Some session =>
      await (OnSession session Disconnect);;
      assign (set_threads ∅);;
      assign (set_debugSession None);;
      assign (set_activeThread None);;
      perform Flush
  end.

Definition _sourceFromTopFrame (frames : list StackFrame) : option Source :=
  match frames !! 0%nat with
  | Some frame => frame_source frame
  | None => None
  end.

Record TopOfStack := {
  top_line : string;
  top_name : string;
  top_frame : StackFrame;
}.

Definition _getTopOfStackSourceInfo (threadId : Z) : Async (option TopOfStack) :=
  frames ← getStackTrace threadId (Some 1);
  match _sourceFromTopFrame frames with
  | None => Ret None
  | Some source =>
      match frames !! 0%nat with
      | None => Throw TypeError
      | Some frame =>
          lines ← getSourceLines source (frame_line frame) 1;
          let result name :=
            {| top_line := match lines with line :: _ => line | [] => "" end;
               top_name := name;
               top_frame := frame |} in
          match src_path source with
          | Some path => Ret (Some (result (nuclideUri_lastSegment path)))
          | None =>
              match src_name source with
              | Some name => Ret (Some (result name))
              | None => Ret None
              end
          end
      end
  end.

Definition _onContinued (threadId : Z) : Async unit :=
  d ← this;
  if bool_decide (Some threadId = _activeThread d) then perform (Console StopInput)
  else Ret tt.

Definition _onStopped (threadId : option Z) : Async unit :=
  d ← this;
  match threadId with
  | Some stopThread =>
      if bool_decide (Some stopThread = _activeThread d) then
        topOfStack ← _getTopOfStackSourceInfo stopThread;
        match topOfStack with
        | Some top =>
            perform (Console (OutputLine
              (top_name top +:+ ":" +:+ Number_toString (frame_line (top_frame top) + 1)
               +:+ " " +:+ top_line top)))
        | None => Ret tt
        end;;
        perform (Console StartInput)
      else Ret tt
  | None => Ret tt
  end.

Definition _onExitedDebugee (exitCode : Z) : Async unit :=
  perform (Console (OutputLine ("Target exited with status " +:+ Number_toString exitCode)));;
  detach closeSession.

Definition _onTerminatedDebugee : Async unit :=
  d ← this;
  match _debugSession d with
  | None => Ret tt
  | Some _ =>
      perform (Console (OutputLine "The target has exited."));;
      detach closeSession;;
      perform (Console StartInput)
  end.

Definition _getSourceByReference (sourceReference : Z) : Async string :=
  session ← _ensureDebugSession;
  await (OnSession session (SourceRequest sourceReference)) ≫= as_content.

(** ** Callers, events and replies *)

(** The subscriber [openSession] gives to each stream. *)
Definition subscriber (e : Event) : Async unit :=
  match e with
  | OutputEvent output => perform (Console (Output output))
  | ContinuedEvent threadId => _onContinued threadId
  | StoppedEvent threadId => _onStopped threadId
  | ExitedEvent exitCode => _onExitedDebugee exitCode
  | TerminatedEvent => _onTerminatedDebugee
  end.

(** [spawn t w] calls [t] without awaiting it. *)
Definition spawn (t : Async unit) (w : World) : World := (exec (detach t) w).1.

Definition subscribed (w : World) (s : VsDebugSession) (st : Stream) : bool :=
  bool_decide (Subscribe s st ∈ trace w).

Inductive Method :=
| call_openSession (adapterInfo : VSAdapterExecutableInfo) (launchArgs : LaunchRequestArguments)
| call_closeSession
| call_stepIn
| call_stepOver
| call_getThreads
| call_getActiveThread
| call_getStackTrace (thread : Z) (frameCount : option Z)
| call_getSourceLines (source : Source) (start length : Z).

Definition body (m : Method) : Async unit :=
  match m with
  | call_openSession adapterInfo launchArgs => openSession adapterInfo launchArgs
  | call_closeSession => closeSession
  | call_stepIn => stepIn
  | call_stepOver => stepOver
  | call_getThreads => getThreads;; Ret tt
  | call_getActiveThread => getActiveThread;; Ret tt
  | call_getStackTrace thread frameCount => getStackTrace thread frameCount;; Ret tt
  | call_getSourceLines source start length => getSourceLines source start length;; Ret tt
  end.

(** What can happen next: the caller calls a method, a session delivers an
    event, or the promise the [i]-th suspended continuation awaits settles. *)
Inductive Action :=
| Invoke (m : Method)
| Deliver (s : VsDebugSession) (e : Event)
| Answer (i : nat) (r : Reply).

Definition step (w : World) (a : Action) : World :=
  match a with
  | Invoke m => spawn (body m) w
  | Deliver s e =>
      if subscribed w s (stream_of e) then spawn (subscriber e) w else w
  | Answer i r =>
      match pending w !! i with
      | Some (c, k) =>
          spawn (k r) (record (Settle c r) (with_pending (delete i (pending w)) w))
      | None => w
      end
  end.

Definition schedule (w : World) (actions : list Action) : World :=
  foldl step w actions.

Definition boot : World :=
  {| debugger := constructor; trace := []; constructed := 0%nat;
     pending := []; rejections := [] |}.

(** * Properties *)

(** ** [Array.prototype.slice] inside the array *)

Lemma Array_slice_inside {A} (l : list A) (start end_ : Z) :
  0 ≤ start → start ≤ end_ → end_ ≤ Z.of_nat (List.length l) →
  Array_slice l start end_ = take (Z.to_nat (end_ - start)) (drop (Z.to_nat start) l).
Proof.
  intros Hs He Hl. unfold Array_slice.
  destruct (Z.ltb_spec start 0); [lia|].
  destruct (Z.ltb_spec end_ 0); [lia|].
  rewrite !Z.min_l by lia. reflexivity.
Qed.

Lemma length_window {A} (l : list A) (start n : Z) :
  0 ≤ start → 0 ≤ n → start + n ≤ Z.of_nat (List.length l) →
  Z.of_nat (List.length (take (Z.to_nat n) (drop (Z.to_nat start) l))) = n.
Proof.
  intros Hs Hn Hl. rewrite length_take, length_drop. lia.
Qed.

(** ** C2: the window [getSourceLines] returns *)

(** The window of the spec: nothing when [start] is at or past the end, else
    the lines from [start] up to [min (start + length) total], which are
    [total - start] lines when [start + length] passes the end. *)
Definition is_window (lines : list string) (start length : Z) (result : list string) : Prop :=
  let total := Z.of_nat (List.length lines) in
  (total ≤ start → result = []) ∧
  (start < total →
     Z.of_nat (List.length result) = Z.min (start + length) total - start ∧
     ∀ i : nat, Z.of_nat i < Z.min (start + length) total - start →
       result !! i = lines !! (Z.to_nat start + i)%nat) ∧
  (start < total → total < start + length →
     Z.of_nat (List.length result) = total - start).

(** The continuation [k] returns the window of whatever lines the cache
    resolves to, and changes nothing. *)
Definition returns_window (start length : Z) (k : Reply → Async (list string)) : Prop :=
  ∀ (lines : list string) (w : World), ∃ result : list string,
    exec (k (Resolved (VLines lines))) w = (w, Settled (Returned result)) ∧
    is_window lines start length result.

Lemma window_of_lines (lines : list string) (start length : Z) (w : World) :
  0 ≤ start → 0 ≤ length →
  ∃ result : list string,
    exec (if bool_decide (Z.of_nat (List.length lines) ≤ start) then Ret []
          else Ret (Array_slice lines start
                      (Z.min (start + length) (Z.of_nat (List.length lines))))) w
      = (w, Settled (Returned result)) ∧
    is_window lines start length result.
Proof.
  intros Hs Hl. case_bool_decide as Hcmp.
  - exists []. split; [reflexivity|]. unfold is_window; simpl.
    repeat split; intros; lia.
  - eexists. split; [reflexivity|].
    rewrite Array_slice_inside by lia.
    set (total := Z.of_nat (List.length lines)) in *.
    set (n := Z.min (start + length) total - start).
    assert (Hlen : Z.of_nat (List.length (take (Z.to_nat n) (drop (Z.to_nat start) lines))) = n)
      by (apply length_window; subst n total; lia).
    unfold is_window. fold total. fold n. repeat split.
    + intros; lia.
    + exact Hlen.
    + intros i Hi. rewrite lookup_take_lt by lia. apply lookup_drop.
    + intros. rewrite Hlen. subst n. lia.
Qed.

(** C2. For [start >= 0] and [length >= 0], [getSourceLines] asks the source
    cache by [sourceReference] when that is present and not zero, else by
    [path] when that is present, and else returns an empty sequence without
    asking; what it returns is the window of the lines the cache resolved to,
    clamped to their number: empty when [start >= totalLines], the lines
    [start, min (start + length) totalLines) otherwise, [totalLines - start]
    of them when [start + length > totalLines]; it returns, and never throws,
    whatever [start] and [length] are. *)
Theorem getSourceLines_window (w : World) (source : Source) (start length : Z) :
  0 ≤ start → 0 ≤ length →
  (∀ ref : Z, src_sourceReference source = Some ref → ref ≠ 0 →
     ∃ k, exec (getSourceLines source start length) w
          = (record (Called (GetFileDataBySourceReference ref)) w,
             Blocked (GetFileDataBySourceReference ref) k) ∧
          returns_window start length k) ∧
  (src_sourceReference source = None ∨ src_sourceReference source = Some 0 →
   ∀ path : string, src_path source = Some path →
     ∃ k, exec (getSourceLines source start length) w
          = (record (Called (GetFileDataByPath path)) w,
             Blocked (GetFileDataByPath path) k) ∧
          returns_window start length k) ∧
  (src_sourceReference source = None ∨ src_sourceReference source = Some 0 →
   src_path source = None →
     exec (getSourceLines source start length) w = (w, Settled (Returned []))).
Proof.
  intros Hs Hl. unfold getSourceLines. repeat split.
  - intros ref Href Hnz. rewrite Href. rewrite bool_decide_true by done.
    eexists. split; [reflexivity|].
    intros lines w'. simpl. apply window_of_lines; assumption.
  - intros Href path Hpath.
    assert (E : ∃ k, exec
      (match src_path source with
       | Some path => await (GetFileDataByPath path) ≫= as_lines
       | None => Ret []
       end ≫= λ lines,
       if bool_decide (Z.of_nat (List.length lines) ≤ start) then Ret []
       else Ret (Array_slice lines start
                   (Z.min (start + length) (Z.of_nat (List.length lines))))) w
      = (record (Called (GetFileDataByPath path)) w, Blocked (GetFileDataByPath path) k)
      ∧ returns_window start length k).
    { rewrite Hpath. eexists. split; [reflexivity|].
      intros lines w'. simpl. apply window_of_lines; assumption. }
    destruct Href as [-> | ->]; [exact E|].
    rewrite bool_decide_false by (intros H; apply H; reflexivity). exact E.
  - intros Href Hpath.
    assert (E : exec
      (match src_path source with
       | Some path => await (GetFileDataByPath path) ≫= as_lines
       | None => Ret []
       end ≫= λ lines,
       if bool_decide (Z.of_nat (List.length lines) ≤ start) then Ret []
       else Ret (Array_slice lines start
                   (Z.min (start + length) (Z.of_nat (List.length lines))))) w
      = (w, Settled (Returned []))).
    { rewrite Hpath. simpl. rewrite bool_decide_true by lia. reflexivity. }
    destruct Href as [-> | ->]; [exact E|].
    rewrite bool_decide_false by (intros H; apply H; reflexivity). exact E.
Qed.

Definition a_source : Source :=
  {| src_path := Some "/a/b.js"; src_sourceReference := None; src_name := None |}.

Lemma getSourceLines_window_witness :
  0 ≤ 1 ∧ 0 ≤ 5 ∧
  ∃ k, exec (getSourceLines a_source 1 5) boot
       = (record (Called (GetFileDataByPath "/a/b.js")) boot,
          Blocked (GetFileDataByPath "/a/b.js") k) ∧
       returns_window 1 5 k.
Proof.
  split; [lia|]. split; [lia|].
  destruct (getSourceLines_window boot a_source 1 5) as (_ & Hpath & _); [lia|lia|].
  apply Hpath; [left|]; reflexivity.
Defined.

(** ** [new Map(entries)] *)

Lemma Map_of_snoc (entries : list (Z * string)) (e : Z * string) :
  Map_of (entries ++ [e]) = <[e.1 := e.2]> (Map_of entries).
Proof. unfold Map_of. rewrite foldl_app. reflexivity. Qed.

Lemma Map_of_list_to_map (entries : list (Z * string)) :
  Map_of entries = list_to_map (reverse entries).
Proof.
  induction entries as [|e entries IH] using rev_ind; [reflexivity|].
  rewrite Map_of_snoc, reverse_snoc, IH. reflexivity.
Qed.

Lemma Map_of_is_Some (entries : list (Z * string)) (i : Z) :
  is_Some (Map_of entries !! i) ↔ i ∈ entries.*1.
Proof.
  rewrite Map_of_list_to_map, <- elem_of_dom, dom_list_to_map_L.
  rewrite elem_of_list_to_set, fmap_reverse, elem_of_reverse. reflexivity.
Qed.

Lemma Map_of_Some_elem (entries : list (Z * string)) (i : Z) (x : string) :
  Map_of entries !! i = Some x → (i, x) ∈ entries.
Proof.
  rewrite Map_of_list_to_map. intros H%elem_of_list_to_map_2.
  rewrite elem_of_reverse in H. exact H.
Qed.

Lemma Map_of_NoDup (entries : list (Z * string)) (i : Z) (x : string) :
  NoDup entries.*1 → (i, x) ∈ entries → Map_of entries !! i = Some x.
Proof.
  intros Hnd Hin. rewrite Map_of_list_to_map. apply elem_of_list_to_map_1.
  - rewrite fmap_reverse, reverse_Permutation. exact Hnd.
  - rewrite elem_of_reverse. exact Hin.
Qed.

(** ** C1: the thread directory and the active thread after [openSession] *)

Definition entries_of (threads : list Thread) : list (Z * string) :=
  (λ thd, (thd_id thd, thd_name thd)) <$> threads.

Lemma entries_of_ids (threads : list Thread) :
  (entries_of threads).*1 = thd_id <$> threads.
Proof. unfold entries_of. rewrite <- list_fmap_compose. reflexivity. Qed.

(** What [openSession] does when nothing else runs before it completes and
    its three requests are answered. *)
Definition openSession_trace (session : VsDebugSession) (adapterInfo : VSAdapterExecutableInfo)
    (launchArgs : LaunchRequestArguments) (capabilities launched : Value)
    (threads : list Thread) : list Interaction :=
  [ Construct session adapterInfo;
    Called (OnSession session (Initialize "fbdb" "path" false));
    Settle (OnSession session (Initialize "fbdb" "path" false)) (Resolved capabilities);
    Subscribe session OutputEvents;
    Subscribe session ContinuedEvents;
    Subscribe session StopEvents;
    Subscribe session ExitedDebugeeEvents;
    Subscribe session TerminateDebugeeEvents;
    Called (OnSession session (Launch launchArgs));
    Settle (OnSession session (Launch launchArgs)) (Resolved launched);
    Called (OnSession session Threads);
    Settle (OnSession session Threads) (Resolved (VThreadsResponse threads)) ].

(** [run_code] unfolds the programs and the interpreter, and nothing else. *)
Ltac run_code :=
  cbv [exec bind resume run spawn step schedule foldl mbind mret Async_bind Async_ret
       this assign perform await detach new_VsDebugSession
       as_lines as_threads as_stackFrames as_content
       _ensureDebugSession getThreads getActiveThread getStackTrace stepIn stepOver
       getSourceLines _cacheThreads openSession closeSession _sourceFromTopFrame
       _getTopOfStackSourceInfo _onContinued _onStopped _onExitedDebugee
       _onTerminatedDebugee _getSourceByReference subscriber body stream_of
       with_debugger record allocate suspend reject with_pending
       set_capabilities set_debugSession set_activeThread set_threads
       debugger trace constructed pending rejections
       _capabilities _debugSession _activeThread _threads
       top_line top_name top_frame src_path src_sourceReference src_name default fst snd].

Tactic Notation "run_code" "in" hyp(H) :=
  cbv [exec bind resume run spawn step schedule foldl mbind mret Async_bind Async_ret
       this assign perform await detach new_VsDebugSession
       as_lines as_threads as_stackFrames as_content
       _ensureDebugSession getThreads getActiveThread getStackTrace stepIn stepOver
       getSourceLines _cacheThreads openSession closeSession _sourceFromTopFrame
       _getTopOfStackSourceInfo _onContinued _onStopped _onExitedDebugee
       _onTerminatedDebugee _getSourceByReference subscriber body stream_of
       with_debugger record allocate suspend reject with_pending
       set_capabilities set_debugSession set_activeThread set_threads
       debugger trace constructed pending rejections
       _capabilities _debugSession _activeThread _threads
       top_line top_name top_frame src_path src_sourceReference src_name default fst snd] in H.

Lemma openSession_run (w : World) (adapterInfo : VSAdapterExecutableInfo)
    (launchArgs : LaunchRequestArguments) (capabilities launched : Value)
    (threads : list Thread) :
  run (openSession adapterInfo launchArgs)
    [Resolved capabilities; Resolved launched; Resolved (VThreadsResponse threads)] w
  = ({| debugger :=
          {| _capabilities := capabilities;
             _debugSession := Some (constructed w);
             _activeThread := thd_id <$> head threads;
             _threads := Map_of (entries_of threads) |};
        trace := trace w ++
          openSession_trace (constructed w) adapterInfo launchArgs capabilities launched threads;
        constructed := S (constructed w);
        pending := pending w;
        rejections := rejections w |},
     Settled (Returned tt)).
Proof.
  destruct w as [d tr n p rj].
  destruct threads as [|thd threads]; run_code.
  - rewrite bool_decide_false by (cbn; lia). run_code.
    rewrite <- !app_assoc. reflexivity.
  - rewrite bool_decide_true by (cbn; lia). run_code.
    rewrite <- !app_assoc. reflexivity.
Qed.

(** C1. When [openSession] completes and [threads()] answered with the
    sequence [threads], [getActiveThread()] returns the id of the first
    thread of the sequence, or [null] when the sequence is empty; the thread
    directory is built from the answer alone: its keys are exactly the
    reported ids, every entry is a reported thread's id with that thread's
    name, and (ids being the identity of threads) every reported thread's id
    is mapped to its name. *)
Theorem openSession_active_thread_and_directory (w : World)
    (adapterInfo : VSAdapterExecutableInfo) (launchArgs : LaunchRequestArguments)
    (capabilities launched : Value) (threads : list Thread) :
  let completed :=
    run (openSession adapterInfo launchArgs)
      [Resolved capabilities; Resolved launched; Resolved (VThreadsResponse threads)] w in
  let directory := _threads (debugger completed.1) in
  completed.2 = Settled (Returned tt) ∧
  (∀ thd rest, threads = thd :: rest →
     exec getActiveThread completed.1
     = (completed.1, Settled (Returned (Some (thd_id thd))))) ∧
  (threads = [] →
     exec getActiveThread completed.1 = (completed.1, Settled (Returned None))) ∧
  (∀ id : Z, is_Some (directory !! id) ↔ id ∈ thd_id <$> threads) ∧
  (∀ (id : Z) (name : string),
     directory !! id = Some name → {| thd_id := id; thd_name := name |} ∈ threads) ∧
  (NoDup (thd_id <$> threads) →
     ∀ thd, thd ∈ threads → directory !! thd_id thd = Some (thd_name thd)).
Proof.
  intros completed directory. subst completed directory.
  rewrite openSession_run. cbn [fst snd debugger _threads]. repeat split.
  - intros thd rest ->. reflexivity.
  - intros ->. reflexivity.
  - rewrite Map_of_is_Some, entries_of_ids. done.
  - rewrite Map_of_is_Some, entries_of_ids. done.
  - intros id name Hin%Map_of_Some_elem. unfold entries_of in Hin.
    apply list_elem_of_fmap in Hin as ([id' name'] & Heq & Hin).
    simpl in Heq. inversion Heq; subst. exact Hin.
  - intros Hnd thd Hin. apply Map_of_NoDup.
    + rewrite entries_of_ids. exact Hnd.
    + unfold entries_of. apply list_elem_of_fmap. exists thd. done.
Qed.

Definition an_adapter : VSAdapterExecutableInfo := {| command := "node"; args := [] |}.
Definition main_thread : Thread := {| thd_id := 1; thd_name := "main" |}.

(** The session of the spec's scenario: opened on a fresh object, with one
    thread [main] of id 1. *)
Definition opened : World :=
  (run (openSession an_adapter [])
     [Resolved (VCapabilities []); Resolved VUndefined;
      Resolved (VThreadsResponse [main_thread])] boot).1.

Lemma NoDup_main_thread : NoDup (thd_id <$> [main_thread]).
Proof. apply NoDup_singleton. Qed.

Lemma openSession_active_thread_and_directory_witness :
  exec getActiveThread opened = (opened, Settled (Returned (Some (thd_id main_thread)))) ∧
  _threads (debugger opened) !! thd_id main_thread = Some (thd_name main_thread).
Proof.
  pose proof (openSession_active_thread_and_directory boot an_adapter []
                (VCapabilities []) VUndefined [main_thread]) as H.
  cbv zeta in H.
  destruct H as (_ & Hfirst & _ & _ & _ & Hname).
  split.
  - exact (Hfirst main_thread [] eq_refl).
  - exact (Hname NoDup_main_thread main_thread (list_elem_of_here _ _)).
Defined.

(** ** C4: stepping without an active thread *)

Lemma getActiveThread_null (w : World) :
  (exec getActiveThread w).2 = Settled (Returned None) →
  _activeThread (debugger w) = None.
Proof.
  destruct w as [[capabilities [session|] active directory] tr n p rj]; run_code;
    [|discriminate].
  intros H. inversion H. reflexivity.
Qed.

(** C4. In every state in which [getActiveThread()] yields [null], [stepIn()]
    and [stepOver()] fail, with the messages "There is no active thread to
    step into." and "There is no active thread to step through.", which
    differ in naming the step, and neither does anything else: the state and
    the trace are as before, so no request is issued. *)
Theorem step_without_active_thread (w : World) :
  (exec getActiveThread w).2 = Settled (Returned None) →
  exec stepIn w
    = (w, Settled (Thrown (Error ("There is no active thread to " +:+ "step into" +:+ ".")))) ∧
  exec stepOver w
    = (w, Settled (Thrown (Error ("There is no active thread to " +:+ "step through" +:+ ".")))) ∧
  (exec stepIn w).2 ≠ (exec stepOver w).2.
Proof.
  intros H%getActiveThread_null. unfold stepIn, stepOver, this.
  cbn [mbind Async_bind bind exec]. rewrite H. cbn [exec snd].
  repeat split. discriminate.
Qed.

(** A session opened while [threads()] reported no thread. *)
Definition opened_without_threads : World :=
  (run (openSession an_adapter [])
     [Resolved (VCapabilities []); Resolved VUndefined;
      Resolved (VThreadsResponse [])] boot).1.

Lemma step_without_active_thread_witness :
  (exec getActiveThread opened_without_threads).2 = Settled (Returned None) ∧
  exec stepIn opened_without_threads
    = (opened_without_threads,
       Settled (Thrown (Error "There is no active thread to step into."))) ∧
  exec stepOver opened_without_threads
    = (opened_without_threads,
       Settled (Thrown (Error "There is no active thread to step through."))).
Proof.
  assert (Hnull : (exec getActiveThread opened_without_threads).2 = Settled (Returned None))
    by (vm_compute; reflexivity).
  split; [exact Hnull|].
  destruct (step_without_active_thread opened_without_threads Hnull) as (Hin & Hover & _).
  split; [exact Hin | exact Hover].
Defined.

(** ** C3: [closeSession] *)

(** C3. On a closed session [closeSession] returns at once and does nothing.
    On an open one it sends [disconnect] and waits; when that is answered,
    in whatever state the object then is, it empties the thread directory,
    unsets the session and the active thread, flushes the source cache and
    returns without throwing; calling it again then is the no-op of the
    closed case, which does not throw either. *)
Theorem closeSession_idempotent (w : World) :
  (_debugSession (debugger w) = None →
     exec closeSession w = (w, Settled (Returned tt))) ∧
  (∀ session, _debugSession (debugger w) = Some session →
     ∃ k, exec closeSession w
          = (record (Called (OnSession session Disconnect)) w,
             Blocked (OnSession session Disconnect) k) ∧
     ∀ (v : Value) (w1 : World), ∃ closed : World,
       exec (k (Resolved v)) w1 = (closed, Settled (Returned tt)) ∧
       _threads (debugger closed) = ∅ ∧
       _debugSession (debugger closed) = None ∧
       _activeThread (debugger closed) = None ∧
       trace closed = trace w1 ++ [Flush] ∧
       pending closed = pending w1 ∧
       rejections closed = rejections w1 ∧
       exec closeSession closed = (closed, Settled (Returned tt))).
Proof.
  destruct w as [[capabilities session' active directory] tr n p rj]. split.
  - run_code. intros ->. reflexivity.
  - intros session. run_code. intros ->. eexists. split; [reflexivity|].
    intros v w1. eexists. run_code. repeat split.
Qed.

Lemma closeSession_idempotent_witness :
  exec closeSession boot = (boot, Settled (Returned tt)) ∧
  ∃ closed,
    run closeSession [Resolved VUndefined] opened = (closed, Settled (Returned tt)) ∧
    _threads (debugger closed) = ∅ ∧
    _debugSession (debugger closed) = None ∧
    _activeThread (debugger closed) = None ∧
    trace closed
      = trace opened ++ [Called (OnSession 0%nat Disconnect);
                         Settle (OnSession 0%nat Disconnect) (Resolved VUndefined); Flush] ∧
    exec closeSession closed = (closed, Settled (Returned tt)).
Proof.
  split.
  - exact (proj1 (closeSession_idempotent boot) eq_refl).
  - destruct (closeSession_idempotent opened) as [_ Hopen].
    assert (Hsession : _debugSession (debugger opened) = Some 0%nat)
      by (vm_compute; reflexivity).
    destruct (Hopen 0%nat Hsession) as (k & Hexec & Hresume).
    destruct (Hresume VUndefined
      (record (Settle (OnSession 0%nat Disconnect) (Resolved VUndefined))
         (record (Called (OnSession 0%nat Disconnect)) opened)))
      as (closed & Hk & Hthreads & Hsession' & Hactive & Htrace & _ & _ & Hagain).
    exists closed. split.
    + unfold run. rewrite Hexec. cbn [resume]. exact Hk.
    + repeat split; assumption.
Defined.

(** ** Events *)

Lemma subscribed_record (w : World) (s : VsDebugSession) (st : Stream) (i : Interaction) :
  subscribed w s st = true → subscribed (record i w) s st = true.
Proof.
  unfold subscribed. cbn [record trace].
  rewrite !bool_decide_eq_true, elem_of_app. auto.
Qed.

Lemma exited_when_closed (w : World) (emitter : VsDebugSession) (exitCode : Z) :
  subscribed w emitter ExitedDebugeeEvents = true →
  _debugSession (debugger w) = None →
  step w (Deliver emitter (ExitedEvent exitCode))
  = record (Console (OutputLine ("Target exited with status " +:+ Number_toString exitCode))) w.
Proof.
  intros Hsub Hclosed.
  destruct w as [[capabilities session active directory] tr n p rj].
  run_code. run_code in Hclosed. subst session. rewrite Hsub. reflexivity.
Qed.

Lemma terminated_when_closed (w : World) (emitter : VsDebugSession) :
  _debugSession (debugger w) = None →
  step w (Deliver emitter TerminatedEvent) = w.
Proof.
  intros Hclosed.
  destruct w as [[capabilities session active directory] tr n p rj].
  run_code. run_code in Hclosed. subst session.
  match goal with |- (if ?b then _ else _) = _ => destruct b end; reflexivity.
Qed.

(** C10. In every state in which the session is closed, an [exited] event
    prints "Target exited with status <code>" all the same, and does nothing
    else: [closeSession] is then a no-op.  A [terminated] event in such a
    state does nothing at all.  So of two [exited] events that reach a closed
    session each prints its line. *)
Theorem exited_when_closed_prints_again (w : World) (emitter : VsDebugSession)
    (exitCode exitCode' : Z) :
  subscribed w emitter ExitedDebugeeEvents = true →
  _debugSession (debugger w) = None →
  step w (Deliver emitter (ExitedEvent exitCode))
  = record (Console (OutputLine ("Target exited with status " +:+ Number_toString exitCode))) w ∧
  step w (Deliver emitter TerminatedEvent) = w ∧
  trace (schedule w [Deliver emitter (ExitedEvent exitCode);
                     Deliver emitter (ExitedEvent exitCode')])
  = trace w ++
      [Console (OutputLine ("Target exited with status " +:+ Number_toString exitCode));
       Console (OutputLine ("Target exited with status " +:+ Number_toString exitCode'))].
Proof.
  intros Hsub Hclosed. split; [|split].
  - apply exited_when_closed; assumption.
  - apply terminated_when_closed; assumption.
  - unfold schedule. cbn [foldl].
    rewrite (exited_when_closed w) by assumption.
    rewrite exited_when_closed by (try apply subscribed_record; assumption).
    cbn [record trace]. rewrite <- app_assoc. reflexivity.
Qed.

(** A session that closed because its target exited with status 1. *)
Definition exited : World :=
  schedule opened [Deliver 0%nat (ExitedEvent 1); Answer 0 (Resolved VUndefined)].

Lemma exited_when_closed_prints_again_witness :
  subscribed exited 0%nat ExitedDebugeeEvents = true ∧
  _debugSession (debugger exited) = None ∧
  trace (schedule exited [Deliver 0%nat (ExitedEvent 1); Deliver 0%nat (ExitedEvent 1)])
  = trace exited ++ [Console (OutputLine "Target exited with status 1");
                     Console (OutputLine "Target exited with status 1")].
Proof.
  assert (Hsub : subscribed exited 0%nat ExitedDebugeeEvents = true)
    by (vm_compute; reflexivity).
  assert (Hclosed : _debugSession (debugger exited) = None)
    by (vm_compute; reflexivity).
  split; [exact Hsub|]. split; [exact Hclosed|].
  exact (proj2 (proj2 (exited_when_closed_prints_again exited 0%nat 1 1 Hsub Hclosed))).
Defined.

(** ** C6: an [exited] event on an open session *)

(** C6. When an [exited] event with exit code [c] reaches an open session,
    the handler prints "Target exited with status c", once, and calls
    [closeSession], which sends [disconnect]; when that is answered the
    session is closed, and [getThreads()] then fails with "There is no
    active debugging session.". *)
Theorem exited_closes_session (w : World) (emitter session : VsDebugSession)
    (exitCode : Z) (v : Value) :
  subscribed w emitter ExitedDebugeeEvents = true →
  _debugSession (debugger w) = Some session →
  let w1 := step w (Deliver emitter (ExitedEvent exitCode)) in
  let w2 := step w1 (Answer (List.length (pending w)) (Resolved v)) in
  trace w1
  = trace w ++ [Console (OutputLine ("Target exited with status " +:+ Number_toString exitCode));
                Called (OnSession session Disconnect)] ∧
  trace w2 = trace w1 ++ [Settle (OnSession session Disconnect) (Resolved v); Flush] ∧
  _debugSession (debugger w2) = None ∧
  rejections w2 = rejections w ∧
  exec getThreads w2
  = (w2, Settled (Thrown (Error "There is no active debugging session."))).
Proof.
  intros Hsub Hsession.
  destruct w as [[capabilities session' active directory] tr n p rj].
  run_code in Hsession. subst session'.
  run_code. rewrite Hsub. run_code.
  rewrite list_lookup_middle by reflexivity. run_code.
  rewrite <- !app_assoc. repeat split.
Qed.

Lemma exited_closes_session_witness :
  subscribed opened 0%nat ExitedDebugeeEvents = true ∧
  _debugSession (debugger opened) = Some 0%nat ∧
  trace (step opened (Deliver 0%nat (ExitedEvent 1)))
  = trace opened ++ [Console (OutputLine "Target exited with status 1");
                     Called (OnSession 0%nat Disconnect)] ∧
  _debugSession (debugger exited) = None ∧
  exec getThreads exited
  = (exited, Settled (Thrown (Error "There is no active debugging session."))).
Proof.
  assert (Hsub : subscribed opened 0%nat ExitedDebugeeEvents = true)
    by (vm_compute; reflexivity).
  assert (Hsession : _debugSession (debugger opened) = Some 0%nat)
    by (vm_compute; reflexivity).
  split; [exact Hsub|]. split; [exact Hsession|].
  destruct (exited_closes_session opened 0%nat 0%nat 1 VUndefined Hsub Hsession)
    as (Hprint & _ & Hclosed & _ & Hthreads).
  split; [exact Hprint|]. split; [exact Hclosed | exact Hthreads].
Defined.

(** ** C5: two [terminated] events *)

(** [closeSession] unsets [_debugSession] only after [disconnect] has been
    answered.  A second [terminated] event that is delivered before that
    still finds the session set: the guard of [_onTerminatedDebugee] lets it
    through, and it prints, disconnects and starts the input again. *)
Lemma terminated_twice_before_disconnect (w : World) (emitter session : VsDebugSession) :
  subscribed w emitter TerminateDebugeeEvents = true →
  _debugSession (debugger w) = Some session →
  let w2 := schedule w [Deliver emitter TerminatedEvent; Deliver emitter TerminatedEvent] in
  trace w2
  = trace w ++ [Console (OutputLine "The target has exited.");
                Called (OnSession session Disconnect);
                Console StartInput;
                Console (OutputLine "The target has exited.");
                Called (OnSession session Disconnect);
                Console StartInput] ∧
  List.length (pending w2) = S (S (List.length (pending w))) ∧
  debugger w2 = debugger w.
Proof.
  intros Hsub Hsession.
  destruct w as [[capabilities session' active directory] tr n p rj].
  run_code in Hsession. subst session'.
  run_code. rewrite Hsub. run_code.
  unfold subscribed in *. cbn [trace] in *.
  rewrite bool_decide_true
    by (rewrite !elem_of_app; do 3 left; apply bool_decide_eq_true in Hsub; exact Hsub).
  rewrite <- !app_assoc, !length_app. cbn [List.length app].
  repeat split. lia.
Qed.

(** When [disconnect] is answered between the two events, the second event
    is ignored. *)
Lemma terminated_after_disconnect_is_ignored (w : World) (emitter session : VsDebugSession)
    (v : Value) :
  subscribed w emitter TerminateDebugeeEvents = true →
  _debugSession (debugger w) = Some session →
  let closed := schedule w [Deliver emitter TerminatedEvent;
                            Answer (List.length (pending w)) (Resolved v)] in
  trace closed
  = trace w ++ [Console (OutputLine "The target has exited.");
                Called (OnSession session Disconnect);
                Console StartInput;
                Settle (OnSession session Disconnect) (Resolved v);
                Flush] ∧
  step closed (Deliver emitter TerminatedEvent) = closed.
Proof.
  intros Hsub Hsession.
  destruct w as [[capabilities session' active directory] tr n p rj].
  run_code in Hsession. subst session'.
  run_code. rewrite Hsub. run_code.
  rewrite list_lookup_middle by reflexivity. run_code.
  rewrite <- !app_assoc. split; [reflexivity|].
  match goal with |- (if ?b then _ else _) = _ => destruct b end; reflexivity.
Qed.

(** C5, on the code.  Two [terminated] events are delivered one after the
    other to the open session of the scenario, with nothing in between: the
    second is not ignored.  "The target has exited." is printed twice,
    [disconnect] is sent twice and the input is started twice; both
    [closeSession] calls then complete, and nothing throws. *)
Theorem terminated_twice_is_not_ignored :
  let w2 := schedule opened [Deliver 0%nat TerminatedEvent; Deliver 0%nat TerminatedEvent] in
  let w4 := schedule w2 [Answer 0 (Resolved VUndefined); Answer 0 (Resolved VUndefined)] in
  trace w2
  = trace opened ++ [Console (OutputLine "The target has exited.");
                     Called (OnSession 0%nat Disconnect);
                     Console StartInput;
                     Console (OutputLine "The target has exited.");
                     Called (OnSession 0%nat Disconnect);
                     Console StartInput] ∧
  trace w4
  = trace w2 ++ [Settle (OnSession 0%nat Disconnect) (Resolved VUndefined); Flush;
                 Settle (OnSession 0%nat Disconnect) (Resolved VUndefined); Flush] ∧
  _debugSession (debugger w4) = None ∧
  rejections w4 = [].
Proof.
  cbv zeta. split.
  - apply (terminated_twice_before_disconnect opened 0%nat 0%nat); vm_compute; reflexivity.
  - repeat split; vm_compute; reflexivity.
Qed.

(** ** C7: a [stopped] event for the active thread *)

(** The calls made on the console, in order. *)
Definition console_of (tr : list Interaction) : list ConsoleCall :=
  omap (λ i, match i with Console c => Some c | _ => None end) tr.

(** [t] returns [a] when the promises it awaits settle to [rs]. *)
Definition returns {A : Type} (t : Async A) (rs : list Reply) (a : A) : Prop :=
  ∀ w : World, (run t rs w).2 = Settled (Returned a).

Ltac split_guard :=
  match goal with
  | |- context [bool_decide ?P] => destruct (bool_decide P)
  end.

(** C7. A [stopped] event arrives for the active thread of an open session,
    [stackTrace] answers with a top frame that has a source, and
    [getSourceLines] for that source and the frame's line returns [got].
    Then the handler prints "<name>:<line + 1> <text>", where <text> is the
    first line of [got] (empty when there is none), <line> is the frame's
    0-based line, and <name> is the last segment of [source.path] when the
    path is set, else [source.name] when that is set; when neither is set
    nothing is printed.  In all three cases the console input is started. *)
Theorem stopped_prints_location (w : World) (session : VsDebugSession) (stopThread : Z)
    (frame : StackFrame) (frames : list StackFrame) (source : Source)
    (lines got : list string) :
  _debugSession (debugger w) = Some session →
  _activeThread (debugger w) = Some stopThread →
  frame_source frame = Some source →
  returns (getSourceLines source (frame_line frame) 1) [Resolved (VLines lines)] got →
  let text := match got with line :: _ => line | [] => "" end in
  let shown name :=
    OutputLine (name +:+ ":" +:+ Number_toString (frame_line frame + 1) +:+ " " +:+ text) in
  let w' := (run (subscriber (StoppedEvent (Some stopThread)))
               [Resolved (VStackTraceResponse (frame :: frames)); Resolved (VLines lines)]
               w).1 in
  (∀ path, src_path source = Some path →
     console_of (trace w')
     = console_of (trace w) ++ [shown (nuclideUri_lastSegment path); StartInput]) ∧
  (src_path source = None → ∀ name, src_name source = Some name →
     console_of (trace w') = console_of (trace w) ++ [shown name; StartInput]) ∧
  (src_path source = None → src_name source = None →
     console_of (trace w') = console_of (trace w) ++ [StartInput]).
Proof.
  intros Hsession Hactive Hsource Hgot. specialize (Hgot w). revert Hgot.
  destruct w as [[capabilities session' active directory] tr n p rj].
  run_code in Hsession. run_code in Hactive. subst session' active.
  destruct source as [path ref name].
  run_code. rewrite bool_decide_true by reflexivity. run_code.
  change ((frame :: frames) !! 0%nat) with (Some frame). run_code.
  rewrite Hsource. run_code.
  destruct ref as [ref|]; [destruct (decide (ref = 0)) as [->|Hnz]|];
    [rewrite !bool_decide_false by (intros H; apply H; reflexivity)
    |rewrite !bool_decide_true by exact Hnz
    |];
    destruct path as [path|]; destruct name as [name|];
    run_code; split_guard; run_code;
    intros Hgot; inversion Hgot; subst got;
    unfold console_of; rewrite ?omap_app; cbn [omap list_omap];
    rewrite <- ?app_assoc, ?app_nil_r; cbn [app];
    (split; [|split]); intros; simplify_eq; try reflexivity.
Qed.

(** The scenario of the spec: the top frame is at line 4 of [/a/b.js], whose
    line of index 4 is [console.log('hi')]. *)
Definition a_frame : StackFrame :=
  {| frame_line := 4; frame_column := 0; frame_name := "main";
     frame_source := Some a_source |}.

Definition b_js : list string :=
  ["'use strict';"; ""; "function main() {"; "  const hi = 'hi';"; "console.log('hi')"; "}"].

Lemma getSourceLines_b_js :
  returns (getSourceLines a_source (frame_line a_frame) 1) [Resolved (VLines b_js)]
    ["console.log('hi')"].
Proof. intros w. destruct w as [d tr n p rj]. vm_compute. reflexivity. Qed.

Lemma stopped_prints_location_witness :
  _debugSession (debugger opened) = Some 0%nat ∧
  _activeThread (debugger opened) = Some 1 ∧
  console_of (trace (run (subscriber (StoppedEvent (Some 1)))
                       [Resolved (VStackTraceResponse [a_frame]); Resolved (VLines b_js)]
                       opened).1)
  = console_of (trace opened) ++ [OutputLine "b.js:5 console.log('hi')"; StartInput].
Proof.
  assert (Hsession : _debugSession (debugger opened) = Some 0%nat)
    by (vm_compute; reflexivity).
  assert (Hactive : _activeThread (debugger opened) = Some 1)
    by (vm_compute; reflexivity).
  split; [exact Hsession|]. split; [exact Hactive|].
  destruct (stopped_prints_location opened 0%nat 1 a_frame [] a_source b_js
              ["console.log('hi')"] Hsession Hactive eq_refl getSourceLines_b_js)
    as (Hpath & _ & _).
  exact (Hpath "/a/b.js" eq_refl).
Defined.

(** ** C9: sessions alive while the state is open *)

(** A session is alive from its construction until a [disconnect] sent to it
    has been answered. *)
Definition disconnected (tr : list Interaction) (s : VsDebugSession) : bool :=
  existsb (λ i, match i with
                | Settle (OnSession s' Disconnect) (Resolved _) => bool_decide (s' = s)
                | _ => false
                end) tr.

Definition alive (w : World) (s : VsDebugSession) : bool :=
  bool_decide (s < constructed w)%nat && negb (disconnected (trace w) s).

Definition alive_sessions (w : World) : list VsDebugSession :=
  filter (λ s, alive w s = true) (seq 0 (constructed w)).

(** The claim of the spec: in state open exactly one session is alive. *)
Definition one_session_alive (w : World) : Prop :=
  is_Some (_debugSession (debugger w)) → List.length (alive_sessions w) = 1%nat.

(** [openSession] is called on the open session of the scenario and all its
    requests are answered. *)
Definition reopened : World * Status unit :=
  run (openSession an_adapter [])
    [Resolved (VCapabilities []); Resolved VUndefined;
     Resolved (VThreadsResponse [main_thread])] opened.

(** C9, as the spec states it, fails: the second [openSession] does not fail,
    and it leaves two sessions alive in state open; the first session was
    never sent [disconnect] and its five subscriptions are still there, so
    a [terminated] event of the first session disconnects the second. *)
Lemma openSession_while_open_leaks :
  one_session_alive opened ∧
  reopened.2 = Settled (Returned tt) ∧
  ¬ one_session_alive reopened.1 ∧
  _debugSession (debugger reopened.1) = Some 1%nat ∧
  alive_sessions reopened.1 = [0%nat; 1%nat] ∧
  (∀ st, subscribed reopened.1 0%nat st = true) ∧
  (Called (OnSession 0%nat Disconnect) ∉ trace reopened.1) ∧
  trace (step reopened.1 (Deliver 0%nat TerminatedEvent))
  = trace reopened.1 ++ [Console (OutputLine "The target has exited.");
                         Called (OnSession 1%nat Disconnect);
                         Console StartInput].
Proof.
  split; [intros _; vm_compute; reflexivity|].
  split; [vm_compute; reflexivity|].
  split.
  { intros H.
    assert (Hopen : is_Some (_debugSession (debugger reopened.1)))
      by (exists 1%nat; vm_compute; reflexivity).
    specialize (H Hopen). vm_compute in H. discriminate H. }
  split; [vm_compute; reflexivity|].
  split; [vm_compute; reflexivity|].
  split; [intros []; vm_compute; reflexivity|].
  split; [|vm_compute; reflexivity].
  apply (bool_decide_unpack _). vm_compute. exact I.
Qed.

Lemma disconnected_app (tr tr' : list Interaction) (s : VsDebugSession) :
  disconnected (tr ++ tr') s = disconnected tr s || disconnected tr' s.
Proof. unfold disconnected. apply existsb_app. Qed.

Lemma subscribed_trace (w w' : World) (s : VsDebugSession) (st : Stream) (tr : list Interaction) :
  trace w' = trace w ++ tr →
  subscribed w s st = true → subscribed w' s st = true.
Proof.
  unfold subscribed. intros ->. rewrite !bool_decide_eq_true, elem_of_app. auto.
Qed.

(** C9, as the code has it.  [openSession] called while a session is open
    does not fail: it constructs a new session, makes it the session of the
    object and subscribes to its five streams.  The prior session is not sent
    [disconnect], it stays alive, and its subscriptions stay. *)
Theorem openSession_while_open_reinitializes (w : World) (prior : VsDebugSession)
    (adapterInfo : VSAdapterExecutableInfo) (launchArgs : LaunchRequestArguments)
    (capabilities launched : Value) (threads : list Thread) :
  _debugSession (debugger w) = Some prior →
  let again :=
    run (openSession adapterInfo launchArgs)
      [Resolved capabilities; Resolved launched; Resolved (VThreadsResponse threads)] w in
  let added :=
    openSession_trace (constructed w) adapterInfo launchArgs capabilities launched threads in
  again.2 = Settled (Returned tt) ∧
  _debugSession (debugger again.1) = Some (constructed w) ∧
  trace again.1 = trace w ++ added ∧
  (Called (OnSession prior Disconnect) ∉ added) ∧
  (alive w prior = true → alive again.1 prior = true) ∧
  (∀ st, subscribed w prior st = true → subscribed again.1 prior st = true) ∧
  (∀ st, subscribed again.1 (constructed w) st = true).
Proof.
  intros _. cbv zeta. rewrite openSession_run. cbn [fst snd].
  split; [reflexivity|]. split; [reflexivity|]. split; [reflexivity|].
  split; [|split; [|split]].
  - unfold openSession_trace. rewrite !elem_of_cons, elem_of_nil.
    intros H. repeat (destruct H as [H|H]; [discriminate H|]). exact H.
  - unfold alive. cbn [constructed trace]. rewrite disconnected_app.
    rewrite !andb_true_iff, !negb_true_iff, !bool_decide_eq_true.
    intros [Hlt ->]. split; [lia|reflexivity].
  - intros st. apply (subscribed_trace w _ prior st (openSession_trace (constructed w)
      adapterInfo launchArgs capabilities launched threads)). reflexivity.
  - intros st. unfold subscribed. cbn [trace]. apply bool_decide_eq_true.
    apply elem_of_app. right. unfold openSession_trace.
    destruct st; repeat first [apply list_elem_of_here | apply list_elem_of_further].
Qed.

Lemma openSession_while_open_reinitializes_witness :
  _debugSession (debugger opened) = Some 0%nat ∧
  reopened.2 = Settled (Returned tt) ∧
  _debugSession (debugger reopened.1) = Some 1%nat ∧
  alive reopened.1 0%nat = true ∧
  subscribed reopened.1 0%nat TerminateDebugeeEvents = true.
Proof.
  assert (Hsession : _debugSession (debugger opened) = Some 0%nat)
    by (vm_compute; reflexivity).
  split; [exact Hsession|].
  destruct (openSession_while_open_reinitializes opened 0%nat an_adapter []
              (VCapabilities []) VUndefined [main_thread] Hsession)
    as (Hreturned & Hagain & _ & _ & Halive & Hsubscribed & _).
  split; [exact Hreturned|]. split; [exact Hagain|].
  split; [apply Halive | apply Hsubscribed]; vm_compute; reflexivity.
Defined.

(** ** C8: the active thread, the session and the directory *)

(** The invariant of the spec: the active thread is set only while the
    session is, and it is then a key of the thread directory. *)
Definition active_thread_invariant (d : Debugger) : Prop :=
  ∀ id : Z, _activeThread d = Some id →
    is_Some (_debugSession d) ∧ is_Some (_threads d !! id).

(** The target of the first session exits; the handler prints and calls
    [closeSession], which sends [disconnect] and waits.  The caller opens a
    second session, and its [threads] request is under way when the
    [disconnect] of the first is answered: the continuation of
    [closeSession] unsets the session.  Then [threads] is answered, and the
    continuation of [_cacheThreads], which checked the session before it
    awaited, sets the active thread. *)
Definition exit_then_reopen : list Action :=
  [ Invoke (call_openSession an_adapter []);
    Answer 0 (Resolved (VCapabilities []));
    Answer 0 (Resolved VUndefined);
    Answer 0 (Resolved (VThreadsResponse [main_thread]));
    Deliver 0%nat (ExitedEvent 0);
    Invoke (call_openSession an_adapter []);
    Answer 1 (Resolved (VCapabilities []));
    Answer 1 (Resolved VUndefined);
    Answer 0 (Resolved VUndefined);
    Answer 0 (Resolved (VThreadsResponse [main_thread])) ].

Lemma active_thread_invariant_cases (d : Debugger) :
  active_thread_invariant d ↔
  match _activeThread d with
  | Some id => is_Some (_debugSession d) ∧ is_Some (_threads d !! id)
  | None => True
  end.
Proof.
  unfold active_thread_invariant. destruct (_activeThread d) as [id|].
  - split; [intros H; apply H; reflexivity|]. intros H id' [= <-]. exact H.
  - split; [done|]. intros _ id' [=].
Qed.

(** The continuation of [_cacheThreads], in whatever state it is resumed:
    it keeps the session as it finds it, and sets the directory and the
    active thread from the answer.  The active thread is then a key of the
    directory; the invariant holds if the session is still set, and fails
    if it is not and a thread was reported. *)
Lemma cacheThreads_resumed (w : World) (session : VsDebugSession) :
  _debugSession (debugger w) = Some session →
  ∃ k, exec _cacheThreads w
       = (record (Called (OnSession session Threads)) w,
          Blocked (OnSession session Threads) k) ∧
  ∀ (threads : list Thread) (w1 : World), ∃ w2 : World,
    exec (k (Resolved (VThreadsResponse threads))) w1 = (w2, Settled (Returned tt)) ∧
    _debugSession (debugger w2) = _debugSession (debugger w1) ∧
    _threads (debugger w2) = Map_of (entries_of threads) ∧
    _activeThread (debugger w2) = thd_id <$> head threads ∧
    (∀ id, _activeThread (debugger w2) = Some id → is_Some (_threads (debugger w2) !! id)) ∧
    (is_Some (_debugSession (debugger w1)) → active_thread_invariant (debugger w2)) ∧
    (_debugSession (debugger w1) = None → threads ≠ [] →
       ¬ active_thread_invariant (debugger w2)).
Proof.
  intros Hsession.
  destruct w as [[capabilities session' active directory] tr n p rj].
  run_code in Hsession. subst session'. run_code.
  eexists. split; [reflexivity|].
  intros threads [[capabilities1 session1 active1 directory1] tr1 n1 p1 rj1].
  assert (Hkey : ∀ thd rest, is_Some (Map_of (entries_of (thd :: rest)) !! thd_id thd)).
  { intros thd rest. apply Map_of_is_Some. rewrite entries_of_ids.
    apply list_elem_of_here. }
  destruct threads as [|thd rest].
  - run_code. rewrite bool_decide_false by (cbn; lia). run_code.
    eexists. split; [reflexivity|]. cbn [debugger _debugSession _threads _activeThread].
    repeat split; try (intros id [=]); try (intros ? id [=]); try done.
  - run_code. rewrite bool_decide_true by (cbn; lia). run_code.
    change ((thd :: rest) !! 0%nat) with (Some thd). run_code.
    eexists. split; [reflexivity|]. cbn [debugger _debugSession _threads _activeThread].
    split; [reflexivity|]. split; [reflexivity|]. split; [reflexivity|].
    split; [|split].
    + intros id [= <-]. apply Hkey.
    + intros Hopen id [= <-]. split; [exact Hopen | apply Hkey].
    + intros -> _ H. destruct (H (thd_id thd) eq_refl) as [[s Hs] _]. discriminate Hs.
Qed.

(** The same with one session: the target terminates while [openSession]
    awaits [threads], and [disconnect] is answered before [threads] is. *)
Definition terminate_while_opening : list Action :=
  [ Invoke (call_openSession an_adapter []);
    Answer 0 (Resolved (VCapabilities []));
    Answer 0 (Resolved VUndefined);
    Deliver 0%nat TerminatedEvent;
    Answer 1 (Resolved VUndefined);
    Answer 0 (Resolved (VThreadsResponse [main_thread])) ].

Lemma active_thread_set_after_terminate :
  _debugSession (debugger (schedule boot terminate_while_opening)) = None ∧
  _activeThread (debugger (schedule boot terminate_while_opening)) = Some 1.
Proof. split; vm_compute; reflexivity. Qed.

(** The same again with a caller that reopens only once its own
    [closeSession] has completed: a [terminated] event arrived while that
    call awaited [disconnect], and the handler's [closeSession] sent a second
    [disconnect], which is answered while the second session awaits
    [threads]. *)
Definition close_twice_then_reopen : list Action :=
  [ Invoke (call_openSession an_adapter []);
    Answer 0 (Resolved (VCapabilities []));
    Answer 0 (Resolved VUndefined);
    Answer 0 (Resolved (VThreadsResponse [main_thread]));
    Invoke call_closeSession;
    Deliver 0%nat TerminatedEvent;
    Answer 0 (Resolved VUndefined);
    Invoke (call_openSession an_adapter []);
    Answer 1 (Resolved (VCapabilities []));
    Answer 1 (Resolved VUndefined);
    Answer 0 (Resolved VUndefined);
    Answer 0 (Resolved (VThreadsResponse [main_thread])) ].

Lemma active_thread_set_after_second_close :
  _debugSession (debugger (schedule boot (take 7 close_twice_then_reopen))) = None ∧
  _debugSession (debugger (schedule boot close_twice_then_reopen)) = None ∧
  _activeThread (debugger (schedule boot close_twice_then_reopen)) = Some 1.
Proof. repeat split; vm_compute; reflexivity. Qed.

(** C8, on the code.  The invariant holds after each of the first nine
    actions of [exit_then_reopen]; the tenth, which resumes [_cacheThreads],
    leaves the active thread set to 1 on an object without a session. *)
Theorem active_thread_set_after_close :
  (∀ n : nat, (n < 10)%nat →
     active_thread_invariant (debugger (schedule boot (take n exit_then_reopen)))) ∧
  _debugSession (debugger (schedule boot exit_then_reopen)) = None ∧
  _activeThread (debugger (schedule boot exit_then_reopen)) = Some 1 ∧
  rejections (schedule boot exit_then_reopen) = [] ∧
  ¬ active_thread_invariant (debugger (schedule boot exit_then_reopen)).
Proof.
  assert (Hsession : _debugSession (debugger (schedule boot exit_then_reopen)) = None)
    by (vm_compute; reflexivity).
  assert (Hactive : _activeThread (debugger (schedule boot exit_then_reopen)) = Some 1)
    by (vm_compute; reflexivity).
  split; [|split; [exact Hsession|split; [exact Hactive|split; [vm_compute; reflexivity|]]]].
  - intros n Hn. apply active_thread_invariant_cases.
    do 10 (destruct n as [|n];
           [vm_compute; try exact I; split; eexists; reflexivity|]).
    lia.
  - intros H. destruct (H 1 Hactive) as [[s Hs] _].
    rewrite Hsession in Hs. discriminate Hs.
Qed.

(** * Further properties of [Debugger] *)

(** ** Conditions that hold whenever nothing is running *)

(** A condition [J] on the fields of the object is kept by a program when it
    holds each time the program returns, throws or waits, provided it holds
    each time the program is resumed.  [wp t d Q]: started on the fields [d],
    [t] reaches [Q] when it first stops, and keeps [J] from then on. *)
Section Suspension.

Variable J : Debugger → Prop.

Fixpoint wp {A : Type} (t : Async A) (d : Debugger) (Q : Debugger → Prop) : Prop :=
  match t with
  | Ret _ => Q d
  | Throw _ => Q d
  | This k => wp (k d) d Q
  | Assign f k => wp k (f d) Q
  | Perform _ k => wp k d Q
  | New _ k => ∀ s, wp (k s) d Q
  | Await _ k => Q d ∧ ∀ r d', J d' → wp (k r) d' J
  | Detach t' k => wp t' d (λ d1, wp k d1 Q)
  end.

Definition kept_on_resume {A : Type} (k : Reply → Async A) : Prop :=
  ∀ r d, J d → wp (k r) d J.

Definition pool_kept (p : list (Call * (Reply → Async unit))) : Prop :=
  Forall (λ ck, kept_on_resume ck.2) p.

Definition quiescent (w : World) : Prop :=
  J (debugger w) ∧ pool_kept (pending w).

Lemma exec_wp {A : Type} (t : Async A) (w : World) (Q : Debugger → Prop) :
  wp t (debugger w) Q → pool_kept (pending w) →
  Q (debugger (exec t w).1) ∧ pool_kept (pending (exec t w).1) ∧
  match (exec t w).2 with
  | Blocked _ k => kept_on_resume k
  | Settled _ => True
  end.
Proof.
  revert w Q.
  induction t as [A a|A e|A k IH|A f k IH|A i k IH|A info k IH|A c k IH|A t' IH' k IH];
    intros w Q Hwp Hpool; cbn [exec wp] in *.
  - cbn [fst snd]. auto.
  - cbn [fst snd]. auto.
  - apply IH; assumption.
  - apply (IH (with_debugger f w)); assumption.
  - apply (IH (record i w)); assumption.
  - apply (IH _ (allocate (record (Construct (constructed w) info) w))); [apply Hwp|assumption].
  - destruct Hwp as [HQ Hk]. cbn [fst snd record debugger pending]. auto.
  - destruct (IH' w _ Hwp Hpool) as (Hk & Hpool' & Hcont).
    destruct (exec t' w) as [w' [[u|e]|c k']]; cbn [fst snd] in *.
    + apply IH; assumption.
    + apply (IH (reject e w')); assumption.
    + apply (IH (suspend c k' w')); [assumption|].
      cbn [suspend pending]. apply Forall_app. split; [assumption|].
      apply Forall_singleton. exact Hcont.
Qed.

Lemma spawn_quiescent (t : Async unit) (w : World) :
  quiescent w → wp t (debugger w) J → quiescent (spawn t w).
Proof.
  intros [HJ Hpool] Hwp. unfold spawn, detach. cbn [exec].
  destruct (exec_wp t w J Hwp Hpool) as (HJ' & Hpool' & Hcont).
  destruct (exec t w) as [w' [[u|e]|c k']]; cbn [fst snd] in *.
  - split; assumption.
  - split; assumption.
  - split; [assumption|]. cbn [suspend pending]. apply Forall_app.
    split; [assumption|]. apply Forall_singleton. exact Hcont.
Qed.

Hypothesis methods_keep : ∀ (m : Method) (d : Debugger), J d → wp (body m) d J.
Hypothesis subscribers_keep : ∀ (e : Event) (d : Debugger), J d → wp (subscriber e) d J.

Lemma step_quiescent (w : World) (a : Action) : quiescent w → quiescent (step w a).
Proof.
  intros Hw. destruct a as [m|s e|i r]; cbn [step].
  - apply spawn_quiescent; [assumption|]. apply methods_keep, Hw.
  - destruct (subscribed w s (stream_of e)); [|assumption].
    apply spawn_quiescent; [assumption|]. apply subscribers_keep, Hw.
  - destruct (pending w !! i) as [[c k]|] eqn:Hi; [|assumption].
    destruct Hw as [HJ Hpool].
    assert (Hk : kept_on_resume k).
    { apply (proj1 (Forall_lookup _ _) Hpool i (c, k) Hi). }
    apply spawn_quiescent.
    + split; [exact HJ|]. cbn [record with_pending pending].
      apply Forall_delete. exact Hpool.
    + apply Hk. exact HJ.
Qed.

Lemma schedule_quiescent (actions : list Action) (w : World) :
  quiescent w → quiescent (schedule w actions).
Proof.
  revert w. induction actions as [|a actions IH]; intros w Hw; [exact Hw|].
  apply IH, step_quiescent, Hw.
Qed.

End Suspension.

(** The half of the invariant of the active thread that does not mention
    the session. *)
Definition active_thread_listed (d : Debugger) : Prop :=
  ∀ id : Z, _activeThread d = Some id → is_Some (_threads d !! id).

Lemma head_thread_listed (thd : Thread) (rest : list Thread) :
  is_Some (Map_of ((λ thd, (thd_id thd, thd_name thd)) <$> (thd :: rest)) !! thd_id thd).
Proof.
  apply Map_of_is_Some. rewrite <- list_fmap_compose. apply list_elem_of_here.
Qed.

Ltac wp_code :=
  cbv [wp exec bind mbind mret Async_bind Async_ret
       this assign perform await detach new_VsDebugSession
       as_lines as_threads as_stackFrames as_content
       _ensureDebugSession getThreads getActiveThread getStackTrace stepIn stepOver
       getSourceLines _cacheThreads openSession closeSession _sourceFromTopFrame
       _getTopOfStackSourceInfo _onContinued _onStopped _onExitedDebugee
       _onTerminatedDebugee _getSourceByReference subscriber body stream_of
       set_capabilities set_debugSession set_activeThread set_threads
       _capabilities _debugSession _activeThread _threads
       top_line top_name top_frame src_path src_sourceReference src_name default].

Ltac wp_cases :=
  repeat first
    [ progress wp_code
    | match goal with
      | |- _ ∧ _ => split
      | |- ∀ _ : Debugger, _ => intros [? ? ? ?]
      | |- ∀ _ : Reply, _ => intros [[]|]
      | |- ∀ _, _ => intro
      | |- context [?l !! 0%nat] => is_var l; destruct l
      | |- context [(?x :: ?l) !! 0%nat] => change ((x :: l) !! 0%nat) with (Some x)
      | |- context [[] !! 0%nat] => rewrite lookup_nil
      | |- context [bool_decide ?P] => destruct (bool_decide P)
      | |- context [match ?x with Some _ => _ | None => _ end] => destruct x
      | |- context [match ?x with [] => _ | _ :: _ => _ end] => destruct x
      end ].

Lemma methods_keep_listed (m : Method) (d : Debugger) :
  active_thread_listed d → wp active_thread_listed (body m) d active_thread_listed.
Proof.
  destruct d as [capabilities session active directory].
  destruct m as [info launchArgs| | | | | |thread frameCount|source start length];
    intros Hd; wp_cases; try assumption;
    unfold active_thread_listed; cbn [_activeThread _threads];
    first [ intros id [= <-]; apply head_thread_listed | intros id [=] ].
Qed.

Lemma subscribers_keep_listed (e : Event) (d : Debugger) :
  active_thread_listed d → wp active_thread_listed (subscriber e) d active_thread_listed.
Proof.
  destruct d as [capabilities session active directory].
  destruct e as [output|threadId|[threadId|]|exitCode|];
    intros Hd; wp_cases; try assumption;
    unfold active_thread_listed; cbn [_activeThread _threads];
    first [ intros id [= <-]; apply head_thread_listed | intros id [=] ].
Qed.

Lemma boot_quiescent (J : Debugger → Prop) : J constructor → quiescent J boot.
Proof. intros HJ. split; [exact HJ | apply Forall_nil_2]. Qed.

(** X1. Whatever the caller, the sessions and the adapters do, and in whatever
    order, each time the object is at rest its active thread, when set, is a
    key of its thread directory. *)
Theorem active_thread_always_listed (actions : list Action) (id : Z) :
  _activeThread (debugger (schedule boot actions)) = Some id →
  is_Some (_threads (debugger (schedule boot actions)) !! id).
Proof.
  assert (H : quiescent active_thread_listed (schedule boot actions)).
  { apply schedule_quiescent.
    - apply methods_keep_listed.
    - apply subscribers_keep_listed.
    - apply boot_quiescent. intros id' [=]. }
  apply H.
Qed.

Lemma active_thread_always_listed_witness :
  _activeThread (debugger (schedule boot exit_then_reopen)) = Some 1 ∧
  is_Some (_threads (debugger (schedule boot exit_then_reopen)) !! 1).
Proof.
  assert (Hactive : _activeThread (debugger (schedule boot exit_then_reopen)) = Some 1)
    by (vm_compute; reflexivity).
  split; [exact Hactive|].
  exact (active_thread_always_listed exit_then_reopen 1 Hactive).
Defined.

(** ** Operations on an object without a session *)

(** X2. Without a session, the operations that need one throw "There is no
    active debugging session." before they do anything: nothing is sent and
    nothing changes.  [stepIn] and [stepOver] get there only with an active
    thread; without one they throw their own error first. *)
Theorem no_session_no_request (w : World) (thread ref : Z) (frameCount : option Z) :
  _debugSession (debugger w) = None →
  exec getThreads w
    = (w, Settled (Thrown (Error "There is no active debugging session."))) ∧
  exec getActiveThread w
    = (w, Settled (Thrown (Error "There is no active debugging session."))) ∧
  exec (getStackTrace thread frameCount) w
    = (w, Settled (Thrown (Error "There is no active debugging session."))) ∧
  exec (_getSourceByReference ref) w
    = (w, Settled (Thrown (Error "There is no active debugging session."))) ∧
  (is_Some (_activeThread (debugger w)) →
     exec stepIn w
       = (w, Settled (Thrown (Error "There is no active debugging session."))) ∧
     exec stepOver w
       = (w, Settled (Thrown (Error "There is no active debugging session.")))).
Proof.
  destruct w as [[capabilities session active directory] tr n p rj].
  run_code. intros ->.
  split; [reflexivity|]. split; [reflexivity|]. split; [reflexivity|].
  split; [reflexivity|]. intros [id ->]. split; reflexivity.
Qed.

Lemma no_session_no_request_witness :
  _debugSession (debugger boot) = None ∧
  exec getThreads boot
    = (boot, Settled (Thrown (Error "There is no active debugging session."))) ∧
  exec (getStackTrace 1 None) boot
    = (boot, Settled (Thrown (Error "There is no active debugging session."))).
Proof.
  split; [reflexivity|].
  destruct (no_session_no_request boot 1 0 None eq_refl) as (Hthreads & _ & Hstack & _).
  split; [exact Hthreads | exact Hstack].
Defined.

(** ** Stepping with an active thread *)

(** X3. With an active thread and a session, [stepIn] sends [stepIn] and
    [stepOver] sends [next], for that thread and on that session, and nothing
    else.  When the request is answered the call returns, when it is rejected
    the call throws the rejection; in both cases the object is left as it is
    found at that time: the step does not wait for the [stopped] event. *)
Theorem step_requests (w : World) (session : VsDebugSession) (thread : Z) :
  _debugSession (debugger w) = Some session →
  _activeThread (debugger w) = Some thread →
  (∃ k, exec stepIn w
        = (record (Called (OnSession session (StepIn thread))) w,
           Blocked (OnSession session (StepIn thread)) k) ∧
        ∀ w1, (∀ v, exec (k (Resolved v)) w1 = (w1, Settled (Returned tt))) ∧
              (∀ e, exec (k (Rejected e)) w1 = (w1, Settled (Thrown e)))) ∧
  (∃ k, exec stepOver w
        = (record (Called (OnSession session (Next thread))) w,
           Blocked (OnSession session (Next thread)) k) ∧
        ∀ w1, (∀ v, exec (k (Resolved v)) w1 = (w1, Settled (Returned tt))) ∧
              (∀ e, exec (k (Rejected e)) w1 = (w1, Settled (Thrown e)))).
Proof.
  destruct w as [[capabilities session' active directory] tr n p rj].
  run_code. intros -> ->.
  split; eexists; (split; [reflexivity|]); intros w1; split; intros; reflexivity.
Qed.

Lemma step_requests_witness :
  _debugSession (debugger opened) = Some 0%nat ∧
  _activeThread (debugger opened) = Some 1 ∧
  (run stepIn [Resolved VUndefined] opened).2 = Settled (Returned tt) ∧
  trace (run stepOver [Rejected (Failure "busy")] opened).1
  = trace opened ++ [Called (OnSession 0%nat (Next 1));
                     Settle (OnSession 0%nat (Next 1)) (Rejected (Failure "busy"))].
Proof.
  assert (Hsession : _debugSession (debugger opened) = Some 0%nat)
    by (vm_compute; reflexivity).
  assert (Hactive : _activeThread (debugger opened) = Some 1)
    by (vm_compute; reflexivity).
  split; [exact Hsession|]. split; [exact Hactive|].
  destruct (step_requests opened 0%nat 1 Hsession Hactive)
    as [(k & Hin & Hk) (k' & Hover & Hk')].
  split.
  - unfold run. rewrite Hin. cbn [resume]. rewrite (proj1 (Hk _)). reflexivity.
  - unfold run. rewrite Hover. cbn [resume]. rewrite (proj2 (Hk' _)). reflexivity.
Defined.

(** ** Events *)


(** X5. A [continued] or a [stopped] event for a thread that is not the active
    one, and a [stopped] event without a thread, are ignored: nothing is
    printed, the console input is left alone and nothing is requested. *)
Theorem events_of_other_threads_ignored (w : World) (emitter : VsDebugSession)
    (threadId : Z) :
  _activeThread (debugger w) ≠ Some threadId →
  step w (Deliver emitter (ContinuedEvent threadId)) = w ∧
  step w (Deliver emitter (StoppedEvent (Some threadId))) = w ∧
  step w (Deliver emitter (StoppedEvent None)) = w.
Proof.
  destruct w as [[capabilities session active directory] tr n p rj].
  cbn [debugger _activeThread]. intros Hother.
  assert (Hguard : bool_decide (Some threadId = active) = false)
    by (apply bool_decide_eq_false; congruence).
  cbn [step stream_of].
  repeat split;
    match goal with |- (if ?b then _ else _) = _ => destruct b end;
    try reflexivity; run_code; rewrite ?Hguard; reflexivity.
Qed.

Lemma events_of_other_threads_ignored_witness :
  _activeThread (debugger opened) ≠ Some 2 ∧
  step opened (Deliver 0%nat (ContinuedEvent 2)) = opened ∧
  step opened (Deliver 0%nat (StoppedEvent (Some 2))) = opened.
Proof.
  assert (Hother : _activeThread (debugger opened) ≠ Some 2)
    by (vm_compute; discriminate).
  split; [exact Hother|].
  destruct (events_of_other_threads_ignored opened 0%nat 2 Hother) as (Hc & Hs & _).
  split; [exact Hc | exact Hs].
Defined.

(** X6. A [stopped] event for the active thread asks for one frame of the stack
    of that thread.  When the answer has no frame, or a top frame without a
    source, nothing is printed and the source cache is not asked, but the
    console input is started. *)
Theorem stopped_without_source (w : World) (session : VsDebugSession) (stopThread : Z)
    (frames : list StackFrame) :
  _debugSession (debugger w) = Some session →
  _activeThread (debugger w) = Some stopThread →
  _sourceFromTopFrame frames = None →
  run (subscriber (StoppedEvent (Some stopThread)))
    [Resolved (VStackTraceResponse frames)] w
  = (record (Console StartInput)
       (record (Settle (OnSession session (StackTrace stopThread 1))
                  (Resolved (VStackTraceResponse frames)))
          (record (Called (OnSession session (StackTrace stopThread 1))) w)),
     Settled (Returned tt)).
Proof.
  destruct w as [[capabilities session' active directory] tr n p rj].
  cbn [debugger _debugSession _activeThread]. intros -> -> Hsource.
  run_code. rewrite bool_decide_true by reflexivity. run_code.
  unfold _sourceFromTopFrame in Hsource. rewrite Hsource. reflexivity.
Qed.

Lemma stopped_without_source_witness :
  _debugSession (debugger opened) = Some 0%nat ∧
  _activeThread (debugger opened) = Some 1 ∧
  _sourceFromTopFrame [] = None ∧
  console_of (trace (run (subscriber (StoppedEvent (Some 1)))
                       [Resolved (VStackTraceResponse [])] opened).1)
  = [StartInput].
Proof.
  assert (Hsession : _debugSession (debugger opened) = Some 0%nat)
    by (vm_compute; reflexivity).
  assert (Hactive : _activeThread (debugger opened) = Some 1)
    by (vm_compute; reflexivity).
  split; [exact Hsession|]. split; [exact Hactive|]. split; [reflexivity|].
  rewrite (stopped_without_source opened 0%nat 1 [] Hsession Hactive eq_refl).
  vm_compute. reflexivity.
Defined.



(** ** [openSession] that does not complete *)

(** X8. When [initialize], [launch] or [threads] is rejected, [openSession]
    throws the rejection.  The session it constructed stays the session of
    the object: the state is open, with the thread directory and the active
    thread as they were before the call.  After a rejected [initialize]
    nothing is subscribed; after a rejected [launch] the five streams are. *)
Theorem openSession_rejected (w : World) (adapterInfo : VSAdapterExecutableInfo)
    (launchArgs : LaunchRequestArguments) (capabilities launched : Value) (e : JsError) :
  let session := constructed w in
  let kept (w' : World) :=
    _debugSession (debugger w') = Some session ∧
    _threads (debugger w') = _threads (debugger w) ∧
    _activeThread (debugger w') = _activeThread (debugger w) in
  let failed_at (rs : list Reply) :=
    run (openSession adapterInfo launchArgs) rs w in
  ((failed_at [Rejected e]).2 = Settled (Thrown e) ∧
   kept (failed_at [Rejected e]).1 ∧
   ∀ st, Subscribe session st ∉ drop (List.length (trace w)) (trace (failed_at [Rejected e]).1)) ∧
  ((failed_at [Resolved capabilities; Rejected e]).2 = Settled (Thrown e) ∧
   kept (failed_at [Resolved capabilities; Rejected e]).1 ∧
   ∀ st, subscribed (failed_at [Resolved capabilities; Rejected e]).1 session st = true) ∧
  ((failed_at [Resolved capabilities; Resolved launched; Rejected e]).2
     = Settled (Thrown e) ∧
   kept (failed_at [Resolved capabilities; Resolved launched; Rejected e]).1).
Proof.
  destruct w as [[capabilities0 session0 active directory] tr n p rj].
  cbv zeta. run_code. repeat split.
  - intros st. rewrite <- !app_assoc, drop_app_length. cbn [app].
    rewrite !elem_of_cons, elem_of_nil. intros H.
    repeat (destruct H as [H|H]; [discriminate H|]). exact H.
  - intros st. unfold subscribed. cbn [trace]. apply bool_decide_eq_true.
    rewrite <- !app_assoc. cbn [app]. apply elem_of_app. right.
    destruct st; repeat first [apply list_elem_of_here | apply list_elem_of_further].
Qed.

(** X9. The stages of [openSession], in whatever state each is resumed.
    Nothing is subscribed until [initialize] is answered; then the five
    streams of the constructed session are subscribed to and [launch] is sent
    to it, in this order.  When [launch] is answered, [threads] is requested
    from the session the object holds at that time; and if it holds none by
    then, the call fails with the assertion of [_cacheThreads] and requests
    nothing. *)
Theorem openSession_stages (w : World) (adapterInfo : VSAdapterExecutableInfo)
    (launchArgs : LaunchRequestArguments) :
  let session := constructed w in
  ∃ k1 w0,
    exec (openSession adapterInfo launchArgs) w
    = (w0, Blocked (OnSession session (Initialize "fbdb" "path" false)) k1) ∧
    trace w0
    = trace w ++ [Construct session adapterInfo;
                  Called (OnSession session (Initialize "fbdb" "path" false))] ∧
    ∀ (capabilities : Value) (w1 : World), ∃ k2 w2,
      exec (k1 (Resolved capabilities)) w1
      = (w2, Blocked (OnSession session (Launch launchArgs)) k2) ∧
      trace w2
      = trace w1 ++
          [Subscribe session OutputEvents; Subscribe session ContinuedEvents;
           Subscribe session StopEvents; Subscribe session ExitedDebugeeEvents;
           Subscribe session TerminateDebugeeEvents;
           Called (OnSession session (Launch launchArgs))] ∧
      _debugSession (debugger w2) = _debugSession (debugger w1) ∧
      ∀ (launched : Value) (w3 : World),
        (_debugSession (debugger w3) = None →
           exec (k2 (Resolved launched)) w3
           = (w3, Settled (Thrown (AssertionError "_cacheThreads called without session")))) ∧
        (∀ held, _debugSession (debugger w3) = Some held →
           ∃ k3, exec (k2 (Resolved launched)) w3
                 = (record (Called (OnSession held Threads)) w3,
                    Blocked (OnSession held Threads) k3)).
Proof.
  destruct w as [[capabilities0 session0 active directory] tr n p rj].
  cbv zeta. run_code. do 2 eexists. split; [reflexivity|].
  cbn [trace]. rewrite <- !app_assoc. cbn [app]. split; [reflexivity|].
  intros capabilities [[capabilities1 session1 active1 directory1] tr1 n1 p1 rj1].
  run_code. do 2 eexists. split; [reflexivity|].
  cbn [trace debugger _debugSession]. rewrite <- !app_assoc. cbn [app].
  split; [reflexivity|]. split; [reflexivity|].
  intros launched [[capabilities2 session2 active2 directory2] tr2 n2 p2 rj2].
  run_code. split.
  - intros ->. reflexivity.
  - intros held ->. eexists. reflexivity.
Qed.

(** ** [closeSession] whose [disconnect] is rejected *)

(** X10. When [disconnect] is rejected, [closeSession] throws the rejection and
    resets nothing: the session, the thread directory and the active thread
    stay, and the source cache is not flushed.  A further [closeSession]
    sends [disconnect] again. *)
Theorem closeSession_rejected (w : World) (session : VsDebugSession) (e : JsError) :
  _debugSession (debugger w) = Some session →
  let failed := run closeSession [Rejected e] w in
  failed.2 = Settled (Thrown e) ∧
  debugger failed.1 = debugger w ∧
  trace failed.1
  = trace w ++ [Called (OnSession session Disconnect);
                Settle (OnSession session Disconnect) (Rejected e)] ∧
  ∃ k, exec closeSession failed.1
       = (record (Called (OnSession session Disconnect)) failed.1,
          Blocked (OnSession session Disconnect) k).
Proof.
  destruct w as [[capabilities session' active directory] tr n p rj].
  cbn [debugger _debugSession]. intros ->. cbv zeta. run_code.
  rewrite <- !app_assoc. cbn [app].
  split; [reflexivity|]. split; [reflexivity|]. split; [reflexivity|].
  eexists. reflexivity.
Qed.

Lemma closeSession_rejected_witness :
  _debugSession (debugger opened) = Some 0%nat ∧
  (run closeSession [Rejected (Failure "EPIPE")] opened).2
  = Settled (Thrown (Failure "EPIPE")) ∧
  debugger (run closeSession [Rejected (Failure "EPIPE")] opened).1 = debugger opened.
Proof.
  assert (Hsession : _debugSession (debugger opened) = Some 0%nat)
    by (vm_compute; reflexivity).
  split; [exact Hsession|].
  destruct (closeSession_rejected opened 0%nat (Failure "EPIPE") Hsession)
    as (Hthrown & Hkept & _).
  split; [exact Hthrown | exact Hkept].
Defined.

Lemma openSession_stages_witness :
  _debugSession (debugger boot) = None ∧
  ∃ k1 w0 k2 w2,
    exec (openSession an_adapter []) boot
    = (w0, Blocked (OnSession 0%nat (Initialize "fbdb" "path" false)) k1) ∧
    exec (k1 (Resolved VUndefined)) w0
    = (w2, Blocked (OnSession 0%nat (Launch [])) k2) ∧
    exec (k2 (Resolved VUndefined)) boot
    = (boot, Settled (Thrown (AssertionError "_cacheThreads called without session"))).
Proof.
  split; [reflexivity|].
  destruct (openSession_stages boot an_adapter []) as (k1 & w0 & Hinit & _ & Hnext).
  destruct (Hnext VUndefined w0) as (k2 & w2 & Hlaunch & _ & _ & Hthreads).
  exists k1, w0, k2, w2. split; [exact Hinit|]. split; [exact Hlaunch|].
  exact (proj1 (Hthreads VUndefined boot) eq_refl).
Defined.

(** ** [getSourceLines] with any integers *)

Lemma Array_slice_segment {A : Type} (l : list A) (start end_ : Z) :
  ∃ before after, l = before ++ Array_slice l start end_ ++ after.
Proof.
  assert (H : ∀ n k : nat, ∃ before after, l = before ++ take n (drop k l) ++ after).
  { intros n k. exists (take k l), (drop n (drop k l)).
    rewrite (take_drop n), take_drop. reflexivity. }
  unfold Array_slice. apply H.
Qed.

(** X11. Whatever integers [start] and [length] are, also negative ones, and
    whichever way the source is looked up, [getSourceLines] returns once the
    cache has answered, and what it returns is a run of consecutive lines of
    the answer. *)
Theorem getSourceLines_segment (w : World) (source : Source) (start length : Z)
    (lines : list string) :
  ∃ (w' : World) (result before after : list string),
    run (getSourceLines source start length) [Resolved (VLines lines)] w
    = (w', Settled (Returned result)) ∧
    debugger w' = debugger w ∧
    lines = before ++ result ++ after.
Proof.
  destruct w as [d tr n p rj]. destruct source as [path ref name].
  destruct ref as [ref|]; [destruct (decide (ref = 0)) as [->|Hnz]|];
    destruct path as [path|]; run_code;
    rewrite ?bool_decide_false by (intros H; apply H; reflexivity);
    rewrite ?bool_decide_true by exact Hnz; run_code;
    split_guard; run_code;
    lazymatch goal with
    | |- context [Array_slice lines ?s ?e] =>
        destruct (Array_slice_segment lines s e) as (before & after & Heq);
        eexists _, _, before, after; repeat split; exact Heq
    | |- context [Array_slice [] ?s ?e] =>
        eexists _, _, lines, []; repeat split; unfold Array_slice;
        rewrite drop_nil, take_nil; cbn [app]; rewrite app_nil_r; reflexivity
    | |- _ => eexists _, [], lines, []; cbn [app]; rewrite app_nil_r; repeat split
    end.
Qed.

(** X12. A negative [start] is not rejected.  [slice] counts it from the end of
    the lines, while the end of the window is still computed from [start] as
    given: for [-total <= start < 0], a window that ends below zero
    ([start + length < 0]) is the [length] lines from index [total + start],
    and a window of at most [total] lines that reaches zero is empty. *)
Theorem getSourceLines_negative_start (w : World) (source : Source) (path : string)
    (start length : Z) (lines : list string) :
  src_sourceReference source = None → src_path source = Some path →
  start < 0 → - Z.of_nat (List.length lines) ≤ start → 0 ≤ length →
  let total := Z.of_nat (List.length lines) in
  let returned := (run (getSourceLines source start length) [Resolved (VLines lines)] w).2 in
  (start + length < 0 →
     returned
     = Settled (Returned (take (Z.to_nat length) (drop (Z.to_nat (total + start)) lines)))) ∧
  (0 ≤ start + length → length ≤ total → returned = Settled (Returned [])).
Proof.
  destruct w as [d tr n p rj]. destruct source as [path' ref name].
  cbn [src_sourceReference src_path]. intros -> -> Hneg Hlow Hlen.
  cbv zeta. run_code. rewrite bool_decide_false by lia. run_code.
  unfold Array_slice. destruct (Z.ltb_spec start 0); [|lia]. split.
  - intros Hend. destruct (Z.ltb_spec (Z.min (start + length) (Z.of_nat (List.length lines))) 0);
      [|lia].
    do 2 f_equal. f_equal; [|f_equal]; lia.
  - intros Hend Hfew.
    destruct (Z.ltb_spec (Z.min (start + length) (Z.of_nat (List.length lines))) 0); [lia|].
    do 2 f_equal.
    match goal with |- take ?n _ = _ => replace n with 0%nat by lia end.
    reflexivity.
Qed.

Lemma getSourceLines_negative_start_witness :
  (-2 < 0) ∧ (- Z.of_nat (List.length b_js) ≤ -2) ∧ (0 ≤ 1) ∧ (-2 + 1 < 0) ∧
  (run (getSourceLines a_source (-2) 1) [Resolved (VLines b_js)] boot).2
  = Settled (Returned (take (Z.to_nat 1)
                         (drop (Z.to_nat (Z.of_nat (List.length b_js) + -2)) b_js))).
Proof.
  assert (H1 : -2 < 0) by lia.
  assert (H2 : - Z.of_nat (List.length b_js) ≤ -2) by (vm_compute; discriminate).
  assert (H3 : 0 ≤ 1) by lia.
  assert (H4 : -2 + 1 < 0) by lia.
  split; [exact H1|]. split; [exact H2|]. split; [exact H3|]. split; [exact H4|].
  exact (proj1 (getSourceLines_negative_start boot a_source "/a/b.js" (-2) 1 b_js
                  eq_refl eq_refl H1 H2 H3) H4).
Defined.

(** ** A thread id reported twice *)

Lemma Map_of_last (before after : list (Z * string)) (i : Z) (x : string) :
  i ∉ after.*1 → Map_of (before ++ (i, x) :: after) !! i = Some x.
Proof.
  induction after as [|e after IH] using rev_ind; intros Hnot.
  - rewrite Map_of_snoc. apply lookup_insert_eq.
  - rewrite fmap_app in Hnot. cbn in Hnot.
    rewrite app_comm_cons, app_assoc, Map_of_snoc.
    rewrite lookup_insert_ne
      by (intros Heq; apply Hnot, elem_of_app; right; rewrite <- Heq;
          apply list_elem_of_here).
    apply IH. intros Hin. apply Hnot, elem_of_app. left. exact Hin.
Qed.

(** X13. When [threads()] reports one id more than once, the directory keeps the
    name that was reported last for it. *)
Theorem directory_keeps_last_name (w : World) (adapterInfo : VSAdapterExecutableInfo)
    (launchArgs : LaunchRequestArguments) (capabilities launched : Value)
    (before after : list Thread) (thd : Thread) :
  thd_id thd ∉ thd_id <$> after →
  _threads (debugger
    (run (openSession adapterInfo launchArgs)
       [Resolved capabilities; Resolved launched;
        Resolved (VThreadsResponse (before ++ thd :: after))] w).1)
    !! thd_id thd
  = Some (thd_name thd).
Proof.
  intros Hlast. rewrite openSession_run. cbn [fst debugger _threads].
  unfold entries_of. rewrite fmap_app, fmap_cons. apply Map_of_last.
  rewrite <- list_fmap_compose. exact Hlast.
Qed.

Lemma directory_keeps_last_name_witness :
  _threads (debugger
    (run (openSession an_adapter [])
       [Resolved VUndefined; Resolved VUndefined;
        Resolved (VThreadsResponse
                    ([{| thd_id := 1; thd_name := "main" |}]
                     ++ {| thd_id := 1; thd_name := "worker" |} :: []))] boot).1)
    !! 1
  = Some "worker".
Proof.
  apply (directory_keeps_last_name boot an_adapter [] VUndefined VUndefined
           [{| thd_id := 1; thd_name := "main" |}] []
           {| thd_id := 1; thd_name := "worker" |}).
  cbn. apply not_elem_of_nil.
Defined.

(** * The Babel plugin [inlineImports]

    The second unit of the source file: a Babel 5 transformer that turns
    [import] declarations into memoized [require] calls, and remembers the
    imported and the re-exported names to refuse a file that does both with
    one name.  Babel itself is not among the sources: the scope's generators
    of fresh identifiers and the file's helper table are parameters, and
    [moduleFormatter.remaps] is the list of what was added to it. *)

Module InlineImports.

(** The nodes the plugin builds with [babel.types]. *)
#[local] Unset Elimination Schemes.
Inductive Node :=
| identifier (name : string)
| literal (value : string)
| callExpression (callee : Node) (arguments : list Node)
| memberExpression (object property : Node)
| logicalExpression (operator : string) (left right : Node)
| assignmentExpression (operator : string) (left right : Node)
| returnStatement (argument : Node)
| blockStatement (body : list Node)
| functionDeclaration (id : Node) (params : list Node) (body : Node)
| variableDeclaration (kind : string) (declarations : list Node)
| variableDeclarator (id : Node).
#[local] Set Elimination Schemes.

(** The specifiers of an import declaration, with the names the plugin reads:
    [local.name] and, for [ImportSpecifier], [imported.name]. *)
Inductive Specifier :=
| ImportNamespaceSpecifier (local : string)
| ImportDefaultSpecifier (local : string)
| ImportSpecifier (imported local : string).

#[global] Instance Specifier_eq_dec : EqDecision Specifier.
Proof. solve_decision. Defined.

Definition local_name (specifier : Specifier) : string :=
  match specifier with
  | ImportNamespaceSpecifier local => local
  | ImportDefaultSpecifier local => local
  | ImportSpecifier _ local => local
  end.

Definition isImportNamespaceSpecifier (specifier : Specifier) : bool :=
  match specifier with ImportNamespaceSpecifier _ => true | _ => false end.

(** [t.isSpecifierDefault]: as the comment in the source has it, a default
    import is an [ImportDefaultSpecifier], or an [ImportSpecifier] whose
    imported name is [default]. *)
Definition isSpecifierDefault (specifier : Specifier) : bool :=
  match specifier with
  | ImportNamespaceSpecifier _ => false
  | ImportDefaultSpecifier _ => true
  | ImportSpecifier imported _ => bool_decide (imported = "default")
  end.

Record ImportDeclarationNode := {
  importKind : string;
  import_source : string;
  import_specifiers : list Specifier;
}.

Record ExportSpecifier := { export_local : string; export_exported : string }.

Record ExportNamedDeclarationNode := {
  export_kind : string;
  export_source : option string;
  export_specifiers : list ExportSpecifier;
}.

(** [state.get('inline-imports')] *)
Record InlineImportsData := { imports : list string; exports : list string }.

(** What a visitor returns: nothing, one node, or an array of nodes. *)
Inductive Replacement :=
| NoReplacement
| ReplaceWith (node : Node)
| ReplaceWithMultiple (nodes : list Node).

Record Memoized := { nodes : list Node; memoizedRef : Node }.

Section Plugin.

(** The scope, with its two generators of identifiers, and the helper table
    of the file. *)
Variable Scope : Type.
Variable generateUidIdentifierBasedOnNode : Scope → ImportDeclarationNode → Scope * string.
Variable generateUidIdentifier : Scope → string → Scope * string.
Variable addHelper : string → Node.

Record State := {
  scope : Scope;
  remaps : list (string * Node);
  remaps_run : nat;
  data : InlineImportsData;
}.

Definition requireExpression (moduleID : string) : Node :=
  callExpression (identifier "require") [literal moduleID].

Definition memoizeExpression (sc : Scope) (node : ImportDeclarationNode) (expression : Node)
    : Scope * Memoized :=
  let '(sc1, memoizedID) := generateUidIdentifierBasedOnNode sc node in
  let '(sc2, memoizedFunction) := generateUidIdentifier sc1 ("load" +:+ memoizedID) in
  (sc2,
   {| nodes :=
        [ variableDeclaration "var" [variableDeclarator (identifier memoizedID)];
          functionDeclaration (identifier memoizedFunction) []
            (blockStatement
               [returnStatement
                  (assignmentExpression "=" (identifier memoizedID) expression)]) ];
      memoizedRef :=
        logicalExpression "||" (identifier memoizedID)
          (callExpression (identifier memoizedFunction) []) |}).

Definition memoizeInteropRequire (sc : Scope) (node : ImportDeclarationNode)
    (interop moduleID : string) : Scope * Memoized :=
  memoizeExpression sc node (callExpression (addHelper interop) [requireExpression moduleID]).

(** [memoizedInterop.memoizedRef]: a [TypeError] when the memo is [null]. *)
Definition memoizedRef_of (memo : option Memoized) : Outcome Node :=
  match memo with
  | Some m => Returned (memoizedRef m)
  | None => Thrown TypeError
  end.

(** The body of [node.specifiers.forEach]: the remap of one specifier. *)
Definition remap_of (memoizedInterop memoizedMember : option Memoized) (specifier : Specifier)
    : Outcome Node :=
  if isImportNamespaceSpecifier specifier then
    memoizedRef_of memoizedInterop
  else if isSpecifierDefault specifier then
    match memoizedRef_of memoizedInterop with
    | Returned ref => Returned (memberExpression ref (identifier "default"))
    | Thrown e => Thrown e
    end
  else
    match memoizedRef_of memoizedMember, specifier with
    | Returned ref, ImportSpecifier imported _ =>
        Returned (memberExpression ref (identifier imported))
    | Returned _, _ => Thrown TypeError
    | Thrown e, _ => Thrown e
    end.

Fixpoint forEach_specifier (memoizedInterop memoizedMember : option Memoized)
    (specifiers : list Specifier) (rm : list (string * Node)) (names : list string)
    : list (string * Node) * list string * Outcome unit :=
  match specifiers with
  | [] => (rm, names, Returned tt)
  | specifier :: rest =>
      match remap_of memoizedInterop memoizedMember specifier with
      | Returned target =>
          forEach_specifier memoizedInterop memoizedMember rest
            (rm ++ [(local_name specifier, target)]) (names ++ [local_name specifier])
      | Thrown e => (rm, names, Thrown e)
      end
  end.

Definition with_imports (st : State) (sc : Scope) (rm : list (string * Node))
    (names : list string) : State :=
  {| scope := sc; remaps := rm; remaps_run := remaps_run st;
     data := {| imports := names; exports := exports (data st) |} |}.

Definition ImportDeclaration (node : ImportDeclarationNode) (st : State)
    : State * Outcome Replacement :=
  if bool_decide (importKind node = "type") || bool_decide (importKind node = "typeof") then
    (st, Returned NoReplacement)
  else
    let moduleID := import_source node in
    match import_specifiers node with
    | [] => (st, Returned (ReplaceWith (requireExpression moduleID)))
    | _ :: _ =>
        let '(sc1, memoizedInterop) :=
          if existsb isImportNamespaceSpecifier (import_specifiers node) then
            let '(sc, m) :=
              memoizeInteropRequire (scope st) node "interop-require-wildcard" moduleID in
            (sc, Some m)
          else if existsb isSpecifierDefault (import_specifiers node) then
            let '(sc, m) :=
              memoizeInteropRequire (scope st) node "interop-require-default" moduleID in
            (sc, Some m)
          else (scope st, None) in
        let replacementNodes :=
          match memoizedInterop with Some m => nodes m | None => [] end in
        let '(sc2, memoizedMember) :=
          if existsb (λ specifier, negb (isImportNamespaceSpecifier specifier)
                                   && negb (isSpecifierDefault specifier))
               (import_specifiers node) then
            let '(sc, m) := memoizeExpression sc1 node (requireExpression moduleID) in
            (sc, Some m)
          else (sc1, None) in
        let replacementNodes :=
          replacementNodes ++ match memoizedMember with Some m => nodes m | None => [] end in
        let '(rm, names, done) :=
          forEach_specifier memoizedInterop memoizedMember (import_specifiers node)
            (remaps st) (imports (data st)) in
        (with_imports st sc2 rm names,
         match done with
         | Returned _ => Returned (ReplaceWithMultiple replacementNodes)
         | Thrown e => Thrown e
         end)
    end.

Definition ExportNamedDeclaration (node : ExportNamedDeclarationNode) (st : State) : State :=
  if bool_decide (export_kind node = "type") then st
  else
    match export_source node with
    | None => st
    | Some _ =>
        {| scope := scope st; remaps := remaps st; remaps_run := remaps_run st;
           data := {| imports := imports (data st);
                      exports := exports (data st)
                                 ++ (export_local <$> export_specifiers node) |} |}
    end.

Definition Program_enter (st : State) : State :=
  {| scope := scope st; remaps := remaps st; remaps_run := remaps_run st;
     data := {| imports := []; exports := [] |} |}.

(** The double quote of the error message. *)
Definition quote : string := String (ascii_of_nat 34) EmptyString.

(** The loop of [Program.exit] over the exported names. *)
Fixpoint first_imported (imported names : list string) : option string :=
  match names with
  | [] => None
  | name :: rest =>
      if bool_decide (name ∈ imported) then Some name else first_imported imported rest
  end.

Definition Program_exit (st : State) : State * Outcome unit :=
  match first_imported (imports (data st)) (exports (data st)) with
  | Some name =>
      (st, Thrown (Error ("importing and exporting " +:+ quote +:+ name +:+ quote
                          +:+ " from the " +:+ "same file is not supported.")))
  | None =>
      ({| scope := scope st; remaps := remaps st; remaps_run := S (remaps_run st);
          data := data st |}, Returned tt)
  end.

(** Babel visits the statements of the program in order, between
    [Program.enter] and [Program.exit].  The traversal is Babel's, not the
    plugin's; it is here to state what the three visitors do together. *)
Inductive Statement :=
| ImportStatement (node : ImportDeclarationNode)
| ExportStatement (node : ExportNamedDeclarationNode)
| OtherStatement.

Fixpoint traverse (body : list Statement) (st : State) : State * Outcome unit :=
  match body with
  | [] => (st, Returned tt)
  | ImportStatement node :: rest =>
      match ImportDeclaration node st with
      | (st', Returned _) => traverse rest st'
      | (st', Thrown e) => (st', Thrown e)
      end
  | ExportStatement node :: rest => traverse rest (ExportNamedDeclaration node st)
  | OtherStatement :: rest => traverse rest st
  end.


(** *** Properties *)

Definition is_type_import (node : ImportDeclarationNode) : bool :=
  bool_decide (importKind node = "type") || bool_decide (importKind node = "typeof").

(** What a specifier is remapped to, given the two memoized references. *)
Definition target (interopRef memberRef : Node) (specifier : Specifier) : Node :=
  match specifier with
  | ImportNamespaceSpecifier _ => interopRef
  | ImportDefaultSpecifier _ => memberExpression interopRef (identifier "default")
  | ImportSpecifier imported _ =>
      if bool_decide (imported = "default")
      then memberExpression interopRef (identifier "default")
      else memberExpression memberRef (identifier imported)
  end.

Definition needs_interop (specifier : Specifier) : bool :=
  isImportNamespaceSpecifier specifier || isSpecifierDefault specifier.

Definition needs_member (specifier : Specifier) : bool :=
  negb (isImportNamespaceSpecifier specifier) && negb (isSpecifierDefault specifier).

Lemma remap_of_target (interop member : option Memoized) (interopRef memberRef : Node)
    (specifier : Specifier) :
  (needs_interop specifier = true → memoizedRef <$> interop = Some interopRef) →
  (needs_member specifier = true → memoizedRef <$> member = Some memberRef) →
  remap_of interop member specifier = Returned (target interopRef memberRef specifier).
Proof.
  unfold remap_of, needs_interop, needs_member.
  destruct specifier as [local|local|imported local]; cbn.
  - intros Hi _. destruct interop as [m|]; cbn in *; [|discriminate (Hi eq_refl)].
    injection (Hi eq_refl) as ->. reflexivity.
  - intros Hi _. destruct interop as [m|]; cbn in *; [|discriminate (Hi eq_refl)].
    injection (Hi eq_refl) as ->. reflexivity.
  - destruct (bool_decide (imported = "default")); cbn.
    + intros Hi _. destruct interop as [m|]; cbn in *; [|discriminate (Hi eq_refl)].
      injection (Hi eq_refl) as ->. reflexivity.
    + intros _ Hm. destruct member as [m|]; cbn in *; [|discriminate (Hm eq_refl)].
      injection (Hm eq_refl) as ->. reflexivity.
Qed.

Lemma forEach_specifier_targets (interop member : option Memoized)
    (interopRef memberRef : Node) (specifiers : list Specifier)
    (rm : list (string * Node)) (names : list string) :
  (∀ s, s ∈ specifiers → needs_interop s = true →
        memoizedRef <$> interop = Some interopRef) →
  (∀ s, s ∈ specifiers → needs_member s = true →
        memoizedRef <$> member = Some memberRef) →
  forEach_specifier interop member specifiers rm names
  = (rm ++ ((λ s, (local_name s, target interopRef memberRef s)) <$> specifiers),
     names ++ (local_name <$> specifiers), Returned tt).
Proof.
  revert rm names. induction specifiers as [|s specifiers IH]; intros rm names Hi Hm.
  - cbn. rewrite !app_nil_r. reflexivity.
  - cbn [forEach_specifier].
    rewrite (remap_of_target interop member interopRef memberRef s)
      by (intros; first [eapply Hi | eapply Hm];
          first [apply list_elem_of_here | assumption]).
    rewrite IH by (intros; first [eapply Hi | eapply Hm];
                   first [apply list_elem_of_further; eassumption | assumption]).
    rewrite !fmap_cons, <- !app_assoc. reflexivity.
Qed.

Lemma existsb_elem {A : Type} (f : A → bool) (l : list A) (x : A) :
  x ∈ l → f x = true → existsb f l = true.
Proof.
  intros Hin Hf. apply existsb_exists. exists x. split; [|exact Hf].
  apply list_elem_of_In. exact Hin.
Qed.

(** What [ImportDeclaration] does to an import of values that has
    specifiers. *)
Lemma ImportDeclaration_inlined (node : ImportDeclarationNode) (st : State) :
  is_type_import node = false →
  import_specifiers node ≠ [] →
  ∃ (interopRef memberRef : Node) (sc : Scope) (replacementNodes : list Node),
    ImportDeclaration node st
    = ({| scope := sc;
          remaps := remaps st ++
            ((λ s, (local_name s, target interopRef memberRef s)) <$> import_specifiers node);
          remaps_run := remaps_run st;
          data := {| imports := imports (data st) ++ (local_name <$> import_specifiers node);
                     exports := exports (data st) |} |},
       Returned (ReplaceWithMultiple replacementNodes)) ∧
    List.length replacementNodes
    = ((if existsb needs_interop (import_specifiers node) then 2 else 0)
       + (if existsb needs_member (import_specifiers node) then 2 else 0))%nat.
Proof.
  intros Hkind Hspecs. unfold ImportDeclaration. unfold is_type_import in Hkind.
  rewrite Hkind.
  destruct (import_specifiers node) as [|s0 specifiers] eqn:Hnode; [done|].
  rewrite <- Hnode. clear Hspecs.
  set (specs := import_specifiers node).
  set (moduleID := import_source node).
  assert (Hinterop : ∃ sc1 interop interopRef,
    (if existsb isImportNamespaceSpecifier specs then
       let '(sc, m) :=
         memoizeInteropRequire (scope st) node "interop-require-wildcard" moduleID in
       (sc, Some m)
     else if existsb isSpecifierDefault specs then
       let '(sc, m) :=
         memoizeInteropRequire (scope st) node "interop-require-default" moduleID in
       (sc, Some m)
     else (scope st, None)) = (sc1, interop) ∧
    (∀ s, s ∈ specs → needs_interop s = true → memoizedRef <$> interop = Some interopRef) ∧
    List.length (match interop with Some m => nodes m | None => [] end)
    = if existsb needs_interop specs then 2%nat else 0%nat).
  { unfold memoizeInteropRequire, memoizeExpression.
    destruct (existsb isImportNamespaceSpecifier specs) eqn:Hns;
      [|destruct (existsb isSpecifierDefault specs) eqn:Hdef].
    - destruct (generateUidIdentifierBasedOnNode (scope st) node) as [sc1 id].
      destruct (generateUidIdentifier sc1 ("load" +:+ id)) as [sc2 f].
      eexists _, _, _. split; [reflexivity|]. split; [intros; reflexivity|].
      cbn. apply existsb_exists in Hns as (s & Hin & Hs).
      rewrite (existsb_elem needs_interop specs s); [reflexivity| |].
      + apply list_elem_of_In. exact Hin.
      + unfold needs_interop. rewrite Hs. reflexivity.
    - destruct (generateUidIdentifierBasedOnNode (scope st) node) as [sc1 id].
      destruct (generateUidIdentifier sc1 ("load" +:+ id)) as [sc2 f].
      eexists _, _, _. split; [reflexivity|]. split; [intros; reflexivity|].
      cbn. apply existsb_exists in Hdef as (s & Hin & Hs).
      rewrite (existsb_elem needs_interop specs s); [reflexivity| |].
      + apply list_elem_of_In. exact Hin.
      + unfold needs_interop. rewrite Hs. apply orb_true_r.
    - exists (scope st), None, (identifier ""). split; [reflexivity|]. split.
      + intros s Hin Hs. unfold needs_interop in Hs.
        apply orb_true_iff in Hs as [Hs|Hs].
        * rewrite (existsb_elem _ _ s Hin Hs) in Hns. discriminate.
        * rewrite (existsb_elem _ _ s Hin Hs) in Hdef. discriminate.
      + destruct (existsb needs_interop specs) eqn:Hany; [|reflexivity].
        apply existsb_exists in Hany as (s & Hin & Hs).
        apply list_elem_of_In in Hin. unfold needs_interop in Hs.
        apply orb_true_iff in Hs as [Hs|Hs].
        * rewrite (existsb_elem _ _ s Hin Hs) in Hns. discriminate.
        * rewrite (existsb_elem _ _ s Hin Hs) in Hdef. discriminate. }
  destruct Hinterop as (sc1 & interop & interopRef & -> & Hi & Hlen1).
  assert (Hmember : ∃ sc2 member memberRef,
    (if existsb (λ specifier, negb (isImportNamespaceSpecifier specifier)
                              && negb (isSpecifierDefault specifier)) specs then
       let '(sc, m) := memoizeExpression sc1 node (requireExpression moduleID) in
       (sc, Some m)
     else (sc1, None)) = (sc2, member) ∧
    (∀ s, s ∈ specs → needs_member s = true → memoizedRef <$> member = Some memberRef) ∧
    List.length (match member with Some m => nodes m | None => [] end)
    = if existsb needs_member specs then 2%nat else 0%nat).
  { unfold memoizeExpression. fold needs_member.
    change (λ specifier, negb (isImportNamespaceSpecifier specifier)
                         && negb (isSpecifierDefault specifier)) with needs_member.
    destruct (existsb needs_member specs) eqn:Hany.
    - destruct (generateUidIdentifierBasedOnNode sc1 node) as [sc2 id].
      destruct (generateUidIdentifier sc2 ("load" +:+ id)) as [sc3 f].
      eexists _, _, _. split; [reflexivity|]. split; [intros; reflexivity|reflexivity].
    - exists sc1, None, (identifier ""). split; [reflexivity|]. split; [|reflexivity].
      intros s Hin Hs. rewrite (existsb_elem _ _ s Hin Hs) in Hany. discriminate. }
  destruct Hmember as (sc2 & member & memberRef & -> & Hm & Hlen2).
  rewrite (forEach_specifier_targets interop member interopRef memberRef specs) by assumption.
  eexists interopRef, memberRef, sc2, _. split; [reflexivity|].
  rewrite length_app, Hlen1, Hlen2. reflexivity.
Qed.

Lemma ImportDeclaration_skipped (node : ImportDeclarationNode) (st : State) :
  is_type_import node = true ∨ import_specifiers node = [] →
  ImportDeclaration node st
  = (st, Returned (if is_type_import node then NoReplacement
                   else ReplaceWith (requireExpression (import_source node)))).
Proof.
  unfold ImportDeclaration, is_type_import.
  destruct (bool_decide (importKind node = "type") || bool_decide (importKind node = "typeof"));
    [reflexivity|].
  intros [Hkind | ->]; [discriminate Hkind|reflexivity].
Qed.

(** X14. The visitor never fails on a missing memo: whenever a specifier needs
    the interop reference or the member reference, the [some] tests have made
    the plugin create it.  So every import declaration is visited without
    an error. *)
Theorem ImportDeclaration_never_throws (node : ImportDeclarationNode) (st : State) :
  ∃ replacement, (ImportDeclaration node st).2 = Returned replacement.
Proof.
  destruct (is_type_import node) eqn:Hkind.
  - rewrite ImportDeclaration_skipped by (left; exact Hkind). eexists. reflexivity.
  - destruct (import_specifiers node) as [|s specifiers] eqn:Hspecs.
    + rewrite ImportDeclaration_skipped by (right; exact Hspecs). eexists. reflexivity.
    + destruct (ImportDeclaration_inlined node st Hkind) as (? & ? & ? & ? & -> & _);
        [rewrite Hspecs; discriminate|].
      eexists. reflexivity.
Qed.

(** X15. An import of types, and an import without specifiers, leave the state
    as it is: no identifier is generated, nothing is remapped and no name is
    recorded.  The first is not replaced, the second is replaced by
    [require(moduleID)]. *)
Theorem ImportDeclaration_untouched (node : ImportDeclarationNode) (st : State) :
  (is_type_import node = true →
     ImportDeclaration node st = (st, Returned NoReplacement)) ∧
  (is_type_import node = false → import_specifiers node = [] →
     ImportDeclaration node st
     = (st, Returned (ReplaceWith
                        (callExpression (identifier "require")
                           [literal (import_source node)])))).
Proof.
  split.
  - intros Hkind. rewrite ImportDeclaration_skipped by (left; exact Hkind).
    rewrite Hkind. reflexivity.
  - intros Hkind Hspecs. rewrite ImportDeclaration_skipped by (right; exact Hspecs).
    rewrite Hkind. reflexivity.
Qed.

(** X16. An import of values records the local name of each of its specifiers, in
    their order, after the names recorded before, and remaps exactly these
    names; it leaves the exported names alone. *)
Theorem ImportDeclaration_records_locals (node : ImportDeclarationNode) (st : State) :
  is_type_import node = false →
  let st' := (ImportDeclaration node st).1 in
  imports (data st') = imports (data st) ++ (local_name <$> import_specifiers node) ∧
  (remaps st').*1 = (remaps st).*1 ++ (local_name <$> import_specifiers node) ∧
  exports (data st') = exports (data st) ∧
  remaps_run st' = remaps_run st.
Proof.
  intros Hkind. cbv zeta.
  destruct (import_specifiers node) as [|s specifiers] eqn:Hspecs.
  - rewrite ImportDeclaration_skipped by (right; exact Hspecs). cbn.
    rewrite !app_nil_r. repeat split.
  - destruct (ImportDeclaration_inlined node st Hkind) as (? & ? & ? & ? & -> & _);
      [rewrite Hspecs; discriminate|].
    rewrite Hspecs. cbn [fst data imports exports remaps remaps_run].
    rewrite fmap_app, <- list_fmap_compose. repeat split.
Qed.

(** X17. The specifiers of one declaration share their memoized loads.  There is
    one interop reference, to which every namespace specifier is remapped and
    of which every default specifier is remapped to the member [default]; and
    one member reference, of which every other specifier is remapped to the
    member of its imported name.  Each of the two loads that is needed adds
    two nodes to the replacement, a variable and its loader. *)
Theorem ImportDeclaration_shares_loads (node : ImportDeclarationNode) (st : State) :
  is_type_import node = false →
  import_specifiers node ≠ [] →
  ∃ (interopRef memberRef : Node) (replacementNodes : list Node),
    remaps (ImportDeclaration node st).1
    = remaps st ++
        ((λ s, (local_name s, target interopRef memberRef s)) <$> import_specifiers node) ∧
    (ImportDeclaration node st).2 = Returned (ReplaceWithMultiple replacementNodes) ∧
    List.length replacementNodes
    = ((if existsb needs_interop (import_specifiers node) then 2 else 0)
       + (if existsb needs_member (import_specifiers node) then 2 else 0))%nat.
Proof.
  intros Hkind Hspecs.
  destruct (ImportDeclaration_inlined node st Hkind Hspecs)
    as (interopRef & memberRef & sc & replacementNodes & -> & Hlen).
  exists interopRef, memberRef, replacementNodes. repeat split. exact Hlen.
Qed.

Lemma first_imported_None (imported names : list string) :
  first_imported imported names = None ↔ ∀ name, name ∈ names → name ∉ imported.
Proof.
  induction names as [|name names IH]; cbn.
  - split; [intros _ name Hin; inversion Hin|reflexivity].
  - case_bool_decide as Hname.
    + split; [discriminate|]. intros H. exfalso. apply (H name); [left|exact Hname].
    + rewrite IH. split.
      * intros H name' Hin. apply elem_of_cons in Hin as [->|Hin]; auto.
      * intros H name' Hin. apply H. right. exact Hin.
Qed.

Lemma first_imported_Some (imported names : list string) (name : string) :
  first_imported imported names = Some name →
  ∃ before after, names = before ++ name :: after ∧ name ∈ imported ∧
                  ∀ earlier, earlier ∈ before → earlier ∉ imported.
Proof.
  induction names as [|name' names IH]; cbn; [discriminate|].
  case_bool_decide as Hname.
  - intros [= ->]. exists [], names. split; [reflexivity|]. split; [exact Hname|].
    intros earlier Hin. inversion Hin.
  - intros H. destruct (IH H) as (before & after & -> & Hin & Hbefore).
    exists (name' :: before), after. split; [reflexivity|]. split; [exact Hin|].
    intros earlier Hearlier. apply elem_of_cons in Hearlier as [->|Hearlier]; auto.
Qed.

(** X18. [Program.exit] refuses the file exactly when a recorded exported name is
    also a recorded imported name.  The error names the first such name in
    the order of the exports, and the remaps are then not run; otherwise they
    are run once. *)
Theorem Program_exit_refuses (st : State) :
  ((∃ e, (Program_exit st).2 = Thrown e) ↔
   ∃ name, name ∈ exports (data st) ∧ name ∈ imports (data st)) ∧
  (∀ e, (Program_exit st).2 = Thrown e →
     ∃ name before after,
       e = Error ("importing and exporting " +:+ quote +:+ name +:+ quote
                  +:+ " from the same file is not supported.") ∧
       exports (data st) = before ++ name :: after ∧
       name ∈ imports (data st) ∧
       (∀ earlier, earlier ∈ before → earlier ∉ imports (data st)) ∧
       (Program_exit st).1 = st) ∧
  ((Program_exit st).2 = Returned tt →
     remaps_run (Program_exit st).1 = S (remaps_run st)).
Proof.
  unfold Program_exit.
  destruct (first_imported (imports (data st)) (exports (data st))) as [name|] eqn:Hfirst.
  - destruct (first_imported_Some _ _ _ Hfirst) as (before & after & Hexp & Hin & Hbefore).
    cbn [fst snd]. split; [|split].
    + split; [|intros _; eexists; reflexivity].
      intros _. exists name. split; [|exact Hin].
      rewrite Hexp. apply elem_of_app. right. left.
    + intros e [= <-]. exists name, before, after. repeat split; assumption.
    + discriminate.
  - cbn [fst snd]. split; [|split].
    + split; [intros [e [=]]|].
      intros (name & Hexp & Himp).
      exfalso. exact (proj1 (first_imported_None _ _) Hfirst name Hexp Himp).
    + intros e [=].
    + reflexivity.
Qed.





End Plugin.

Arguments scope {Scope} s.
Arguments remaps {Scope} s.
Arguments remaps_run {Scope} s.
Arguments data {Scope} s.

(** A scope that numbers the identifiers it generates, for the examples. *)
Definition numbering_uid (sc : nat) (name : string) : nat * string :=
  (S sc, "_" +:+ name +:+ pretty sc).

Definition numbering_uid_of_node (sc : nat) (node : ImportDeclarationNode) : nat * string :=
  numbering_uid sc (import_source node).

Definition a_helper (name : string) : Node := identifier ("babelHelpers." +:+ name).

Definition fresh : State nat :=
  {| scope := 0%nat; remaps := []; remaps_run := 0;
     data := {| imports := []; exports := [] |} |}.

(** [import Foo, * as bar from 'x'] and [import {baz as qux} from 'y']. *)
Definition import_Foo_bar : ImportDeclarationNode :=
  {| importKind := "value"; import_source := "x";
     import_specifiers := [ImportDefaultSpecifier "Foo"; ImportNamespaceSpecifier "bar"] |}.

Definition import_qux : ImportDeclarationNode :=
  {| importKind := "value"; import_source := "y";
     import_specifiers := [ImportSpecifier "baz" "qux"] |}.

(** [import type {T} from 'x'], [export {qux} from 'z'] and [export {qux}]. *)
Definition import_type_T : ImportDeclarationNode :=
  {| importKind := "type"; import_source := "x";
     import_specifiers := [ImportSpecifier "T" "T"] |}.

Definition export_qux_from : ExportNamedDeclarationNode :=
  {| export_kind := "value"; export_source := Some "z";
     export_specifiers := [{| export_local := "qux"; export_exported := "qux" |}] |}.


Lemma ImportDeclaration_untouched_witness :
  ImportDeclaration nat numbering_uid_of_node numbering_uid a_helper import_type_T fresh
  = (fresh, Returned NoReplacement).
Proof.
  apply (ImportDeclaration_untouched nat numbering_uid_of_node numbering_uid a_helper
           import_type_T fresh).
  vm_compute. reflexivity.
Defined.

Lemma ImportDeclaration_records_locals_witness :
  is_type_import import_Foo_bar = false ∧
  imports (data (ImportDeclaration nat numbering_uid_of_node numbering_uid a_helper
                   import_Foo_bar fresh).1)
  = imports (data fresh) ++ (local_name <$> import_specifiers import_Foo_bar).
Proof.
  assert (Hkind : is_type_import import_Foo_bar = false) by (vm_compute; reflexivity).
  split; [exact Hkind|].
  exact (proj1 (ImportDeclaration_records_locals nat numbering_uid_of_node numbering_uid
                  a_helper import_Foo_bar fresh Hkind)).
Defined.

Lemma ImportDeclaration_shares_loads_witness :
  is_type_import import_Foo_bar = false ∧
  import_specifiers import_Foo_bar ≠ [] ∧
  ∃ (interopRef memberRef : Node) (replacementNodes : list Node),
    remaps (ImportDeclaration nat numbering_uid_of_node numbering_uid a_helper
              import_Foo_bar fresh).1
    = remaps fresh ++
        ((λ s, (local_name s, target interopRef memberRef s))
           <$> import_specifiers import_Foo_bar) ∧
    (ImportDeclaration nat numbering_uid_of_node numbering_uid a_helper
       import_Foo_bar fresh).2
    = Returned (ReplaceWithMultiple replacementNodes) ∧
    List.length replacementNodes
    = ((if existsb needs_interop (import_specifiers import_Foo_bar) then 2 else 0)
       + (if existsb needs_member (import_specifiers import_Foo_bar) then 2 else 0))%nat.
Proof.
  assert (Hkind : is_type_import import_Foo_bar = false) by (vm_compute; reflexivity).
  assert (Hspecs : import_specifiers import_Foo_bar ≠ []) by discriminate.
  split; [exact Hkind|]. split; [exact Hspecs|].
  exact (ImportDeclaration_shares_loads nat numbering_uid_of_node numbering_uid a_helper
           import_Foo_bar fresh Hkind Hspecs).
Defined.

Definition refused_program : list Statement :=
  [ImportStatement import_qux; ExportStatement export_qux_from].



Lemma Program_exit_refuses_witness :
  let st := (traverse nat numbering_uid_of_node numbering_uid a_helper refused_program
               (Program_enter nat fresh)).1 in
  "qux" ∈ exports (data st) ∧ "qux" ∈ imports (data st) ∧
  ∃ e, (Program_exit nat st).2 = Thrown e.
Proof.
  cbv zeta.
  assert (Hexp : "qux" ∈ exports (data
    (traverse nat numbering_uid_of_node numbering_uid a_helper refused_program
       (Program_enter nat fresh)).1)) by (vm_compute; apply list_elem_of_here).
  assert (Himp : "qux" ∈ imports (data
    (traverse nat numbering_uid_of_node numbering_uid a_helper refused_program
       (Program_enter nat fresh)).1)) by (vm_compute; apply list_elem_of_here).
  split; [exact Hexp|]. split; [exact Himp|].
  apply (Program_exit_refuses nat). exists "qux". split; assumption.
Defined.

End InlineImports.

(** * The class [ScribeProcess]

    The first unit of the source file: a wrapper of a [scribe_cat] child
    process that is started on demand, stopped by [join], and started again
    by the next [write].

    Everything that reads or writes the fields of the object is synchronous:
    [_getChildProcess], [_clear], the part of [join] before its [await], and
    the two callbacks (of the join timer, and of [finally] on the stream of
    the process).  These are the transitions of the model.  What [write] and
    [join] do after their [await] touches the child process only; it is given
    as the list of what they do to it.  The process, the timers and the
    stream are not modelled: starting a process, setting and clearing timers
    and writing to the child are recorded, and that a timer fires or a stream
    ends is an input.  Both happen between the synchronous parts, as the
    events of a Node child process do: a stream that ends inside [connect()]
    is not among the runs.  Unsubscribing ends the stream as well; the
    callback of [finally] it triggers is the step of the stream's end. *)

Module Scribe.

(** The callbacks given to [setTimeout]: the one of [_getChildProcess], which
    joins, and the one of [join], which unsubscribes. *)
Inductive Callback :=
| AutoJoin
| JoinTimeout (subscription : nat).

#[global] Instance Callback_eq_dec : EqDecision Callback.
Proof. solve_decision. Defined.

(** A process started by [connect()] is identified by the order of its
    start, and so are its promise and its subscription; a timer by the number
    [setTimeout] returns. *)
Inductive Effect :=
| Spawn (child : nat) (command : string) (args : list string)
| SetTimeout (timer : nat) (callback : Callback) (ms : Z)
| ClearTimeout (timer : nat)
| Fired (timer : nat)
| Ended (child : nat)
| StdinWrite (child : nat) (text : string)
| StdinEnd (child : nat)
| OnceDrain (child : nat)
| OnExit (child : nat)
| Unsubscribe (subscription : nat).

#[global] Instance Effect_eq_dec : EqDecision Effect.
Proof. solve_decision. Defined.

Record ScribeProcess := {
  _scribeCategory : string;
  _childPromise : option nat;
  _subscription : option nat;
  _joinTimer : option nat;
  _joinInterval : option Z;
}.

(** The object, the module variable [SCRIBE_CAT_COMMAND], what has been done
    so far, and the next number for a process or a timer. *)
Record World := {
  this : ScribeProcess;
  SCRIBE_CAT_COMMAND : string;
  effects : list Effect;
  next : nat;
}.

Definition DEFAULT_JOIN_TIMEOUT : Z := 5000.

Definition DEFAULT_JOIN_INTERVAL (platform : string) : option Z :=
  if bool_decide (platform = "darwin") then Some 60000 else None.

Definition with_this (o : ScribeProcess) (w : World) : World :=
  {| this := o; SCRIBE_CAT_COMMAND := SCRIBE_CAT_COMMAND w;
     effects := effects w; next := next w |}.

Definition do (e : Effect) (w : World) : World :=
  {| this := this w; SCRIBE_CAT_COMMAND := SCRIBE_CAT_COMMAND w;
     effects := effects w ++ [e]; next := next w |}.

Definition number (w : World) : World :=
  {| this := this w; SCRIBE_CAT_COMMAND := SCRIBE_CAT_COMMAND w;
     effects := effects w; next := S (next w) |}.

Definition _clear (w : World) : World :=
  let o := this w in
  with_this
    {| _scribeCategory := _scribeCategory o; _childPromise := None;
       _subscription := None; _joinTimer := None;
       _joinInterval := _joinInterval o |}
    match _joinTimer o with
    | Some timer => do (ClearTimeout timer) w
    | None => w
    end.

Definition _getChildProcess (w : World) : World * nat :=
  let o := this w in
  match _childPromise o with
  | Some childPromise => (w, childPromise)
  | None =>
      let child := next w in
      let w1 := do (Spawn child (SCRIBE_CAT_COMMAND w) [_scribeCategory o]) (number w) in
      let started timer :=
        {| _scribeCategory := _scribeCategory o; _childPromise := Some child;
           _subscription := Some child; _joinTimer := timer;
           _joinInterval := _joinInterval o |} in
      match _joinInterval o with
      | Some ms =>
          let timer := next w1 in
          (with_this (started (Some timer))
             (do (SetTimeout timer AutoJoin ms) (number w1)), child)
      | None => (with_this (started (_joinTimer o)) w1, child)
      end
  end.

Definition constructor (command scribeCategory : string) (joinInterval : option Z) : World :=
  (_getChildProcess
     {| this := {| _scribeCategory := scribeCategory; _childPromise := None;
                   _subscription := None; _joinTimer := None;
                   _joinInterval := joinInterval |};
        SCRIBE_CAT_COMMAND := command; effects := []; next := 0 |}).1.

(** [join], up to its [await]: the promise and the subscription it goes on
    with, when there is something to join. *)
Definition join (w : World) : World * option (nat * nat) :=
  match _childPromise (this w), _subscription (this w) with
  | Some childPromise, Some subscription => (_clear w, Some (childPromise, subscription))
  | _, _ => (w, None)
  end.

(** [join] after its [await], for the child of the promise: [drained] is what
    [stdin.write] returns. *)
Definition join_resumed (EOL : string) (child subscription : nat) (timeout : Z)
    (drained : bool) (w : World) : World :=
  let w1 := do (OnExit child) w in
  let w2 := do (SetTimeout (next w1) (JoinTimeout subscription) timeout) (number w1) in
  let w3 := do (StdinWrite child EOL) w2 in
  if drained then do (StdinEnd child) w3 else do (OnceDrain child) w3.

(** [write]: up to its [await], then on the child of the promise. *)
Definition write (w : World) : World * nat := _getChildProcess w.

Definition write_resumed (EOL : string) (child : nat) (message : string) (w : World) : World :=
  do (StdinWrite child (message +:+ EOL)) w.

(** The callback of the join timer. *)
Definition timer_callback (w : World) : World :=
  let o := this w in
  (join (with_this {| _scribeCategory := _scribeCategory o;
                      _childPromise := _childPromise o;
                      _subscription := _subscription o; _joinTimer := None;
                      _joinInterval := _joinInterval o |} w)).1.

(** The callback of [finally] on the stream whose promise is [childPromise]. *)
Definition finally_callback (childPromise : nat) (w : World) : World :=
  if bool_decide (_childPromise (this w) = Some childPromise) then _clear w else w.

(** [__test__.setScribeCatCommand] *)
Definition setScribeCatCommand (newCommand : string) (w : World) : World * string :=
  ({| this := this w; SCRIBE_CAT_COMMAND := newCommand;
      effects := effects w; next := next w |}, SCRIBE_CAT_COMMAND w).

(** A timer is pending when it was set and has neither fired nor been
    cleared; a stream is running from the start of its process to its end. *)
Definition pending (w : World) (timer : nat) (callback : Callback) : Prop :=
  (∃ ms, SetTimeout timer callback ms ∈ effects w) ∧
  (ClearTimeout timer ∉ effects w) ∧ (Fired timer ∉ effects w).

Definition running (w : World) (child : nat) : Prop :=
  (∃ command args, Spawn child command args ∈ effects w) ∧ (Ended child ∉ effects w).

(** What can happen: the caller calls [write] or [join], one of these calls
    is resumed after its [await], a pending timer fires, or a running stream
    ends.  A resumed call is not tied to the call it continues: it may go on
    with any child, which only adds runs. *)
Inductive Event :=
| CallWrite
| CallJoin
| ResumeWrite (EOL : string) (child : nat) (message : string)
| ResumeJoin (EOL : string) (child subscription : nat) (timeout : Z) (drained : bool)
| TimerFires (timer : nat) (callback : Callback)
| StreamEnds (child : nat)
| SetCommand (newCommand : string).

Inductive step : World → Event → World → Prop :=
| step_write w : step w CallWrite (write w).1
| step_join w : step w CallJoin (join w).1
| step_write_resumed w EOL child message :
    step w (ResumeWrite EOL child message) (write_resumed EOL child message w)
| step_join_resumed w EOL child subscription timeout drained :
    step w (ResumeJoin EOL child subscription timeout drained)
      (join_resumed EOL child subscription timeout drained w)
| step_auto_join w timer :
    pending w timer AutoJoin →
    step w (TimerFires timer AutoJoin) (timer_callback (do (Fired timer) w))
| step_join_timeout w timer subscription :
    pending w timer (JoinTimeout subscription) →
    step w (TimerFires timer (JoinTimeout subscription))
      (do (Unsubscribe subscription) (do (Fired timer) w))
| step_stream_ends w child :
    running w child →
    step w (StreamEnds child) (finally_callback child (do (Ended child) w))
| step_set_command w newCommand :
    step w (SetCommand newCommand) (setScribeCatCommand newCommand w).1.

Inductive reachable (command scribeCategory : string) (joinInterval : option Z)
    : World → Prop :=
| reachable_constructor :
    reachable command scribeCategory joinInterval
      (constructor command scribeCategory joinInterval)
| reachable_step w e w' :
    reachable command scribeCategory joinInterval w → step w e w' →
    reachable command scribeCategory joinInterval w'.

(** *** What always holds *)

(** The fields agree with each other and with the timers, the numbers in
    use are below the next number, and a timer is set once. *)
Record sound (joinInterval : option Z) (w : World) : Prop := {
  sound_fields : _childPromise (this w) = _subscription (this w);
  sound_interval : _joinInterval (this w) = joinInterval;
  sound_timer : ∀ t, _joinTimer (this w) = Some t →
    is_Some (_childPromise (this w)) ∧ pending w t AutoJoin;
  sound_pending : ∀ t, pending w t AutoJoin → _joinTimer (this w) = Some t;
  sound_no_interval : joinInterval = None →
    ∀ t ms, SetTimeout t AutoJoin ms ∉ effects w;
  sound_set : ∀ t cb ms, SetTimeout t cb ms ∈ effects w → (t < next w)%nat;
  sound_cleared : ∀ t, ClearTimeout t ∈ effects w → (t < next w)%nat;
  sound_fired : ∀ t, Fired t ∈ effects w → (t < next w)%nat;
  sound_spawned : ∀ c cmd args, Spawn c cmd args ∈ effects w → (c < next w)%nat;
  sound_ended : ∀ c, Ended c ∈ effects w → (c < next w)%nat;
  sound_once : ∀ t cb cb' ms ms',
    SetTimeout t cb ms ∈ effects w → SetTimeout t cb' ms' ∈ effects w → cb = cb';
}.

Definition refers_to_running (w : World) : Prop :=
  ∀ p, _childPromise (this w) = Some p → running w p.

Lemma in_do (e x : Effect) (w : World) : x ∈ effects (do e w) ↔ x ∈ effects w ∨ x = e.
Proof. cbn [do effects]. rewrite elem_of_app, list_elem_of_singleton. reflexivity. Qed.

Lemma pending_do (e : Effect) (w : World) (t : nat) (cb : Callback) :
  pending (do e w) t cb ↔
  ((∃ ms, SetTimeout t cb ms ∈ effects w) ∨ (∃ ms, e = SetTimeout t cb ms)) ∧
  (ClearTimeout t ∉ effects w) ∧ e ≠ ClearTimeout t ∧
  (Fired t ∉ effects w) ∧ e ≠ Fired t.
Proof.
  unfold pending. setoid_rewrite in_do. split.
  - intros ((ms & [H|H]) & Hc & Hf); (split; [eauto|]);
      repeat split; auto; intros ->; auto.
  - intros ([(ms & H)|(ms & H)] & Hc & Hc' & Hf & Hf');
      (split; [exists ms; auto|]); split; intros [?|?]; auto.
Qed.

Lemma pending_do_other (e : Effect) (w : World) (t : nat) (cb : Callback) :
  (∀ ms, e ≠ SetTimeout t cb ms) → e ≠ ClearTimeout t → e ≠ Fired t →
  pending (do e w) t cb ↔ pending w t cb.
Proof.
  intros Hs Hc Hf. rewrite pending_do. unfold pending. split.
  - intros ([H|(ms & H)] & ? & _ & ? & _); [auto|]. destruct (Hs ms H).
  - intros (H & ? & ?). auto 6.
Qed.

Lemma running_do (e : Effect) (w : World) (c : nat) :
  running (do e w) c ↔
  ((∃ cmd args, Spawn c cmd args ∈ effects w) ∨ (∃ cmd args, e = Spawn c cmd args)) ∧
  (Ended c ∉ effects w) ∧ e ≠ Ended c.
Proof.
  unfold running. setoid_rewrite in_do. split.
  - intros ((cmd & args & [H|H]) & He); (split; [eauto|]);
      split; auto; intros ->; auto.
  - intros ([(cmd & args & H)|(cmd & args & H)] & He & He');
      (split; [exists cmd, args; auto|]); intros [?|?]; auto.
Qed.

Lemma running_do_other (e : Effect) (w : World) (c : nat) :
  (∀ cmd args, e ≠ Spawn c cmd args) → e ≠ Ended c →
  running (do e w) c ↔ running w c.
Proof.
  intros Hs He. rewrite running_do. unfold running. split.
  - intros ([H|(cmd & args & H)] & ? & _); [auto|]. destruct (Hs cmd args H).
  - intros (H & ?). auto.
Qed.

(** Writing to the child, ending its input, listening to it and
    unsubscribing concern neither the timers nor the streams. *)
Definition inert (e : Effect) : Prop :=
  match e with
  | StdinWrite _ _ | StdinEnd _ | OnceDrain _ | OnExit _ | Unsubscribe _ => True
  | _ => False
  end.

Lemma sound_do_inert (joinInterval : option Z) (e : Effect) (w : World) :
  inert e → sound joinInterval w → sound joinInterval (do e w).
Proof.
  intros He [Hf Hi Ht Hp Hn Hs Hc Hfi Hsp Hen Ho].
  assert (Hpending : ∀ t cb, pending (do e w) t cb ↔ pending w t cb).
  { intros t cb. apply pending_do_other; intros; intros ->; exact He. }
  split; cbn [do this next]; try assumption.
  - intros t Htimer. rewrite Hpending. auto.
  - intros t. rewrite Hpending. auto.
  - intros Hnone t ms [H|Heq]%in_do; [exact (Hn Hnone t ms H)|].
    rewrite <- Heq in He. exact He.
  - intros t cb ms [H|Heq]%in_do; [eauto|]. rewrite <- Heq in He. destruct He.
  - intros t [H|Heq]%in_do; [eauto|]. rewrite <- Heq in He. destruct He.
  - intros t [H|Heq]%in_do; [eauto|]. rewrite <- Heq in He. destruct He.
  - intros c cmd args [H|Heq]%in_do; [eauto|]. rewrite <- Heq in He. destruct He.
  - intros c [H|Heq]%in_do; [eauto|]. rewrite <- Heq in He. destruct He.
  - intros t cb cb' ms ms' [H|Heq]%in_do; [|rewrite <- Heq in He; destruct He].
    intros [H'|Heq]%in_do; [eauto|]. rewrite <- Heq in He. destruct He.
Qed.

Lemma refers_do_inert (e : Effect) (w : World) :
  inert e → refers_to_running w → refers_to_running (do e w).
Proof.
  intros He Hr p Hp. apply running_do_other; [intros; intros ->; exact He|intros ->; exact He|].
  apply Hr. exact Hp.
Qed.

Lemma sound_clear (joinInterval : option Z) (w : World) :
  sound joinInterval w → sound joinInterval (_clear w).
Proof.
  intros [Hf Hi Ht Hp Hn Hs Hc Hfi Hsp Hen Ho]. unfold _clear.
  destruct (_joinTimer (this w)) as [timer|] eqn:Htimer.
  - destruct (Ht timer eq_refl) as [_ ((ms & Hset) & _ & _)].
    split; cbn [with_this do this next _childPromise _subscription _joinTimer _joinInterval];
      try assumption; try reflexivity.
    + intros t [=].
    + intros t Hpending. exfalso.
      apply pending_do in Hpending as (Hwas & Hnc & Hne & Hnf & _).
      destruct Hwas as [Hwas|(ms' & [=])].
      assert (Some timer = Some t) as [= ->] by (apply Hp; repeat split; assumption).
      apply Hne. reflexivity.
    + intros Hnone t ms' [H|[=]]%in_do. exact (Hn Hnone t ms' H).
    + intros t cb ms' [H|[=]]%in_do. eauto.
    + intros t [H|[= ->]]%in_do; eauto.
    + intros t [H|[=]]%in_do. eauto.
    + intros c cmd args [H|[=]]%in_do. eauto.
    + intros c [H|[=]]%in_do. eauto.
    + intros t cb cb' ms' ms'' [H|[=]]%in_do [H'|[=]]%in_do. eauto.
  - split; cbn [with_this this next effects _childPromise _subscription _joinTimer _joinInterval];
      try assumption; try reflexivity.
    intros t [=].
Qed.

Lemma refers_clear (w : World) : refers_to_running (_clear w).
Proof. intros p. unfold _clear. cbn. discriminate. Qed.

Lemma sound_getChildProcess (joinInterval : option Z) (w : World) :
  sound joinInterval w → refers_to_running w →
  sound joinInterval (_getChildProcess w).1 ∧ refers_to_running (_getChildProcess w).1.
Proof.
  intros Hsound Hrefers. unfold _getChildProcess.
  destruct (_childPromise (this w)) as [p|] eqn:Hchild; [split; assumption|].
  destruct Hsound as [Hf Hi Ht Hp Hn Hs Hc Hfi Hsp Hen Ho].
  assert (Hnotimer : _joinTimer (this w) = None).
  { destruct (_joinTimer (this w)) as [t|] eqn:Htimer; [|reflexivity].
    destruct (Ht t eq_refl) as [[p Hsome] _]. rewrite Hchild in Hsome. discriminate Hsome. }
  assert (Hnopending : ∀ t, ¬ pending w t AutoJoin).
  { intros t Hpending. apply Hp in Hpending. rewrite Hnotimer in Hpending.
    discriminate Hpending. }
  set (child := next w).
  set (spawn := Spawn child (SCRIBE_CAT_COMMAND w) [_scribeCategory (this w)]).
  destruct (_joinInterval (this w)) as [ms|] eqn:Hinterval.
  - assert (Hin : ∀ x, x ∈ (effects w ++ [spawn]) ++ [SetTimeout (S (next w)) AutoJoin ms]
                       ↔ x ∈ effects w ∨ x = spawn ∨ x = SetTimeout (S (next w)) AutoJoin ms).
    { intros x. rewrite !elem_of_app, !list_elem_of_singleton. tauto. }
    cbn [fst]. split; [split|]; unfold refers_to_running, running, pending;
      cbn [with_this do number this next effects
           _childPromise _subscription _joinTimer _joinInterval].
    + reflexivity.
    + exact Hi.
    + intros t [= <-]. split; [eexists; reflexivity|].
      setoid_rewrite Hin. split; [exists ms; auto|]. split.
      * intros [H|[[=]|[=]]]. apply Hc in H. lia.
      * intros [H|[[=]|[=]]]. apply Hfi in H. lia.
    + intros t ((ms' & Hset) & Hnc & Hnf). apply Hin in Hset as [Hset|[[=]|[= -> _]]];
        [|reflexivity].
      exfalso. apply (Hnopending t). split; [eauto|].
      split; intros H; [apply Hnc|apply Hnf]; apply Hin; auto.
    + intros Hnone. rewrite Hnone in Hi. discriminate Hi.
    + intros t cb ms' [H|[[=]|[= -> _ _]]]%Hin; [apply Hs in H; lia|lia].
    + intros t [H|[[=]|[=]]]%Hin. apply Hc in H. lia.
    + intros t [H|[[=]|[=]]]%Hin. apply Hfi in H. lia.
    + intros c cmd args [H|[[= -> _ _]|[=]]]%Hin; [apply Hsp in H; lia|unfold child; lia].
    + intros c [H|[[=]|[=]]]%Hin. apply Hen in H. lia.
    + intros t cb cb' ms' ms'' [H|[[=]|Heq]]%Hin [H'|[[=]|Heq']]%Hin.
      * eauto.
      * injection Heq' as -> _ _. apply Hs in H. lia.
      * injection Heq as -> _ _. apply Hs in H'. lia.
      * congruence.
    + intros p [= <-]. setoid_rewrite Hin. split.
      * exists (SCRIBE_CAT_COMMAND w), [_scribeCategory (this w)]. auto.
      * intros [H|[[=]|[=]]]. apply Hen in H. unfold child in H. lia.
  - assert (Hin : ∀ x, x ∈ effects w ++ [spawn] ↔ x ∈ effects w ∨ x = spawn).
    { intros x. rewrite !elem_of_app, !list_elem_of_singleton. tauto. }
    cbn [fst]. rewrite Hnotimer. split; [split|]; unfold refers_to_running, running, pending;
      cbn [with_this do number this next effects
           _childPromise _subscription _joinTimer _joinInterval].
    + reflexivity.
    + exact Hi.
    + intros t [=].
    + intros t ((ms' & Hset) & Hnc & Hnf). apply Hin in Hset as [Hset|[=]].
      exfalso. apply (Hnopending t). split; [eauto|].
      split; intros H; [apply Hnc|apply Hnf]; apply Hin; auto.
    + intros Hnone t ms' [H|[=]]%Hin. exact (Hn Hnone t ms' H).
    + intros t cb ms' [H|[=]]%Hin. apply Hs in H. lia.
    + intros t [H|[=]]%Hin. apply Hc in H. lia.
    + intros t [H|[=]]%Hin. apply Hfi in H. lia.
    + intros c cmd args [H|[= -> _ _]]%Hin; [apply Hsp in H; lia|unfold child; lia].
    + intros c [H|[=]]%Hin. apply Hen in H. lia.
    + intros t cb cb' ms' ms'' [H|[=]]%Hin [H'|[=]]%Hin. eauto.
    + intros p [= <-]. setoid_rewrite Hin. split.
      * exists (SCRIBE_CAT_COMMAND w), [_scribeCategory (this w)]. auto.
      * intros [H|[=]]. apply Hen in H. unfold child in H. lia.
Qed.

Lemma sound_join (joinInterval : option Z) (w : World) :
  sound joinInterval w → refers_to_running w →
  sound joinInterval (join w).1 ∧ refers_to_running (join w).1.
Proof.
  intros Hsound Hrefers. unfold join.
  destruct (_childPromise (this w)), (_subscription (this w)); cbn [fst];
    auto using sound_clear, refers_clear.
Qed.

Lemma sound_timer_callback (joinInterval : option Z) (w : World) (timer : nat) :
  sound joinInterval w → refers_to_running w → pending w timer AutoJoin →
  sound joinInterval (timer_callback (do (Fired timer) w)) ∧
  refers_to_running (timer_callback (do (Fired timer) w)).
Proof.
  intros [Hf Hi Ht Hp Hn Hs Hc Hfi Hsp Hen Ho] Hrefers Hpending.
  unfold timer_callback. apply sound_join.
  - pose proof (Hp timer Hpending) as Htimer.
    destruct Hpending as ((ms & Hset) & _ & _).
    split; cbn [with_this do this next _childPromise _subscription _joinTimer _joinInterval];
      try assumption.
    + intros t [=].
    + intros t Hpending. exfalso.
      apply pending_do in Hpending as (Hwas & Hnc & _ & Hnf & Hne).
      destruct Hwas as [Hwas|(ms' & [=])].
      assert (_joinTimer (this w) = Some t) as Htimer' by (apply Hp; repeat split; assumption).
      rewrite Htimer in Htimer'. injection Htimer' as ->. apply Hne. reflexivity.
    + intros Hnone t ms' [H|[=]]%in_do. exact (Hn Hnone t ms' H).
    + intros t cb ms' [H|[=]]%in_do. eauto.
    + intros t [H|[=]]%in_do. eauto.
    + intros t [H|[= ->]]%in_do; eauto.
    + intros c cmd args [H|[=]]%in_do. eauto.
    + intros c [H|[=]]%in_do. eauto.
    + intros t cb cb' ms' ms'' [H|[=]]%in_do [H'|[=]]%in_do. eauto.
  - intros p Hp'. apply running_do_other; [discriminate|discriminate|].
    apply Hrefers. exact Hp'.
Qed.

Lemma sound_finally_callback (joinInterval : option Z) (w : World) (child : nat) :
  sound joinInterval w → refers_to_running w → running w child →
  sound joinInterval (finally_callback child (do (Ended child) w)) ∧
  refers_to_running (finally_callback child (do (Ended child) w)).
Proof.
  intros [Hf Hi Ht Hp Hn Hs Hc Hfi Hsp Hen Ho] Hrefers ((cmd & args & Hspawn) & _).
  assert (Hpending : ∀ t cb, pending (do (Ended child) w) t cb ↔ pending w t cb).
  { intros t cb. apply pending_do_other; discriminate. }
  assert (Hsound : sound joinInterval (do (Ended child) w)).
  { split; cbn [do this next]; try assumption.
    - intros t Htimer. rewrite Hpending. auto.
    - intros t. rewrite Hpending. auto.
    - intros Hnone t ms' [H|[=]]%in_do. exact (Hn Hnone t ms' H).
    - intros t cb ms' [H|[=]]%in_do. eauto.
    - intros t [H|[=]]%in_do. eauto.
    - intros t [H|[=]]%in_do. eauto.
    - intros c cmd' args' [H|[=]]%in_do. eauto.
    - intros c [H|[= ->]]%in_do; eauto.
    - intros t cb cb' ms' ms'' [H|[=]]%in_do [H'|[=]]%in_do. eauto. }
  unfold finally_callback. case_bool_decide as Hchild.
  - auto using sound_clear, refers_clear.
  - split; [exact Hsound|]. intros p Hp'. cbn [do this] in Hp', Hchild.
    apply running_do_other; [discriminate|congruence|]. apply Hrefers. exact Hp'.
Qed.

Lemma sound_join_timeout (joinInterval : option Z) (w : World) (timer subscription : nat) :
  sound joinInterval w → refers_to_running w → pending w timer (JoinTimeout subscription) →
  sound joinInterval (do (Unsubscribe subscription) (do (Fired timer) w)) ∧
  refers_to_running (do (Unsubscribe subscription) (do (Fired timer) w)).
Proof.
  intros [Hf Hi Ht Hp Hn Hs Hc Hfi Hsp Hen Ho] Hrefers ((ms & Hset) & _ & _).
  assert (Hpending : ∀ t, pending (do (Fired timer) w) t AutoJoin ↔ pending w t AutoJoin).
  { intros t. split.
    - intros (Hwas & Hnc & _ & Hnf & _)%pending_do.
      destruct Hwas as [Hwas|(ms' & [=])]. repeat split; assumption.
    - intros Hpending. apply pending_do_other; [discriminate|discriminate| |exact Hpending].
      intros [= ->]. destruct Hpending as ((ms' & Hset') & _).
      discriminate (Ho _ _ _ _ _ Hset Hset'). }
  split.
  - apply sound_do_inert; [exact I|].
    split; cbn [do this next]; try assumption.
    + intros t Htimer. rewrite Hpending. auto.
    + intros t. rewrite Hpending. auto.
    + intros Hnone t ms' [H|[=]]%in_do. exact (Hn Hnone t ms' H).
    + intros t cb ms' [H|[=]]%in_do. eauto.
    + intros t [H|[=]]%in_do. eauto.
    + intros t [H|[= ->]]%in_do; eauto.
    + intros c cmd' args' [H|[=]]%in_do. eauto.
    + intros c [H|[=]]%in_do. eauto.
    + intros t cb cb' ms' ms'' [H|[=]]%in_do [H'|[=]]%in_do. eauto.
  - apply refers_do_inert; [exact I|]. intros p Hp'.
    apply running_do_other; [discriminate|discriminate|]. apply Hrefers. exact Hp'.
Qed.

Lemma sound_join_resumed (joinInterval : option Z) (w : World) (EOL : string)
    (child subscription : nat) (timeout : Z) (drained : bool) :
  sound joinInterval w → refers_to_running w →
  sound joinInterval (join_resumed EOL child subscription timeout drained w) ∧
  refers_to_running (join_resumed EOL child subscription timeout drained w).
Proof.
  intros Hsound Hrefers. unfold join_resumed.
  set (w1 := do (OnExit child) w).
  assert (Hsound1 : sound joinInterval w1) by (apply sound_do_inert; [exact I|exact Hsound]).
  assert (Hrefers1 : refers_to_running w1) by (apply refers_do_inert; [exact I|exact Hrefers]).
  clearbody w1. clear w Hsound Hrefers.
  set (w2 := do (SetTimeout (next w1) (JoinTimeout subscription) timeout) (number w1)).
  assert (Hsound2 : sound joinInterval w2).
  { destruct Hsound1 as [Hf Hi Ht Hp Hn Hs Hc Hfi Hsp Hen Ho].
    assert (Hpending : ∀ t, pending w2 t AutoJoin ↔ pending w1 t AutoJoin).
    { intros t. unfold w2. rewrite pending_do_other by discriminate. reflexivity. }
    assert (Hin : ∀ x, x ∈ effects w2 ↔
                       x ∈ effects w1 ∨ x = SetTimeout (next w1) (JoinTimeout subscription) timeout).
    { intros x. unfold w2. rewrite in_do. reflexivity. }
    split; try assumption.
    - intros t Htimer. rewrite Hpending. auto.
    - intros t. rewrite Hpending. auto.
    - intros Hnone t ms' [H|[=]]%Hin. exact (Hn Hnone t ms' H).
    - intros t cb ms' [H|Heq]%Hin; cbn [w2 do number next].
      + apply Hs in H. lia.
      + injection Heq as -> _ _. lia.
    - intros t [H|[=]]%Hin. cbn [w2 do number next]. apply Hc in H. lia.
    - intros t [H|[=]]%Hin. cbn [w2 do number next]. apply Hfi in H. lia.
    - intros c cmd' args' [H|[=]]%Hin. cbn [w2 do number next]. apply Hsp in H. lia.
    - intros c [H|[=]]%Hin. cbn [w2 do number next]. apply Hen in H. lia.
    - intros t cb cb' ms' ms'' [H|Heq]%Hin [H'|Heq']%Hin.
      + eauto.
      + injection Heq' as -> _ _. apply Hs in H. lia.
      + injection Heq as -> _ _. apply Hs in H'. lia.
      + congruence. }
  assert (Hrefers2 : refers_to_running w2).
  { intros p Hp'. unfold w2. apply running_do_other; [discriminate|discriminate|].
    apply Hrefers1. exact Hp'. }
  clearbody w2.
  destruct drained;
    (split; [do 2 (apply sound_do_inert; [exact I|]); exact Hsound2
            |do 2 (apply refers_do_inert; [exact I|]); exact Hrefers2]).
Qed.

Lemma sound_setScribeCatCommand (joinInterval : option Z) (w : World) (newCommand : string) :
  sound joinInterval w → refers_to_running w →
  sound joinInterval (setScribeCatCommand newCommand w).1 ∧
  refers_to_running (setScribeCatCommand newCommand w).1.
Proof.
  intros [Hf Hi Ht Hp Hn Hs Hc Hfi Hsp Hen Ho] Hrefers.
  split; [split; assumption|exact Hrefers].
Qed.

Lemma sound_constructor (command scribeCategory : string) (joinInterval : option Z) :
  sound joinInterval (constructor command scribeCategory joinInterval) ∧
  refers_to_running (constructor command scribeCategory joinInterval).
Proof.
  unfold constructor. apply sound_getChildProcess.
  - split; cbn [this effects next _childPromise _subscription _joinTimer _joinInterval];
      try reflexivity; try (intros * []%elem_of_nil).
    + intros t [=].
    + intros t ((ms & []%elem_of_nil) & _).
    + intros _ t ms []%elem_of_nil.
  - intros p [=].
Qed.

(** Every step keeps it, so that it holds in every state of every run. *)
Lemma step_sound (joinInterval : option Z) (w w' : World) (e : Event) :
  step w e w' → sound joinInterval w → refers_to_running w →
  sound joinInterval w' ∧ refers_to_running w'.
Proof.
  intros Hstep Hsound Hrefers. destruct Hstep.
  - apply sound_getChildProcess; assumption.
  - apply sound_join; assumption.
  - split; [apply sound_do_inert|apply refers_do_inert]; first [exact I|assumption].
  - apply sound_join_resumed; assumption.
  - apply sound_timer_callback; assumption.
  - apply sound_join_timeout; assumption.
  - apply sound_finally_callback; assumption.
  - apply sound_setScribeCatCommand; assumption.
Qed.

Lemma reachable_sound (command scribeCategory : string) (joinInterval : option Z)
    (w : World) :
  reachable command scribeCategory joinInterval w →
  sound joinInterval w ∧ refers_to_running w.
Proof.
  induction 1 as [|w e w' _ [Hsound Hrefers] Hstep].
  - apply sound_constructor.
  - exact (step_sound _ _ _ _ Hstep Hsound Hrefers).
Qed.

(** A call of [write] on an object without a process starts one, with the
    command and the category of the moment. *)
Lemma write_starts (joinInterval : option Z) (w : World) :
  sound joinInterval w → refers_to_running w → _childPromise (this w) = None →
  (write w).2 = next w ∧
  _childPromise (this (write w).1) = Some (next w) ∧
  running (write w).1 (next w) ∧
  Spawn (next w) (SCRIBE_CAT_COMMAND w) [_scribeCategory (this w)] ∈ effects (write w).1.
Proof.
  intros Hsound Hrefers Hchild.
  destruct (sound_getChildProcess _ _ Hsound Hrefers) as [_ Hrunning].
  assert (Hnew : (write w).2 = next w ∧ _childPromise (this (write w).1) = Some (next w) ∧
                 Spawn (next w) (SCRIBE_CAT_COMMAND w) [_scribeCategory (this w)]
                 ∈ effects (write w).1).
  { unfold write, _getChildProcess. rewrite Hchild.
    destruct (_joinInterval (this w));
      cbn [fst snd with_this do number this effects _childPromise];
      (split; [reflexivity|]); (split; [reflexivity|]);
      rewrite ?elem_of_app, !list_elem_of_singleton; auto. }
  destruct Hnew as (Hresult & Hfield & Hspawn).
  split; [exact Hresult|]. split; [exact Hfield|]. split; [|exact Hspawn].
  apply Hrunning. exact Hfield.
Qed.

(** What [join] leaves when there is a process. *)
Lemma join_drops (joinInterval : option Z) (w : World) (p : nat) :
  sound joinInterval w → _childPromise (this w) = Some p →
  join w = (_clear w, Some (p, p)).
Proof.
  intros [Hf _ _ _ _ _ _ _ _ _ _] Hchild. unfold join.
  rewrite <- Hf, Hchild. reflexivity.
Qed.

Lemma next_clear (w : World) : next (_clear w) = next w.
Proof. unfold _clear. destruct (_joinTimer (this w)); reflexivity. Qed.

Lemma command_clear (w : World) : SCRIBE_CAT_COMMAND (_clear w) = SCRIBE_CAT_COMMAND w.
Proof. unfold _clear. destruct (_joinTimer (this w)); reflexivity. Qed.

Lemma category_clear (w : World) :
  _scribeCategory (this (_clear w)) = _scribeCategory (this w).
Proof. reflexivity. Qed.

Lemma running_below (joinInterval : option Z) (w : World) (p : nat) :
  sound joinInterval w → running w p → (p < next w)%nat.
Proof. intros Hsound ((cmd & args & Hspawn) & _). exact (sound_spawned _ _ Hsound _ _ _ Hspawn). Qed.

(** *** The timers *)

(** X20. At most one timer of the periodic join is pending, the one the object
    holds: no timer is set twice without the first being cleared or fired,
    and [join] and [_clear] leave no timer behind. *)
Theorem one_join_timer (command scribeCategory : string) (joinInterval : option Z)
    (w : World) (t : nat) :
  reachable command scribeCategory joinInterval w →
  pending w t AutoJoin ↔ _joinTimer (this w) = Some t.
Proof.
  intros [Hsound _]%reachable_sound. split.
  - apply (sound_pending _ _ Hsound).
  - intros Htimer. apply (sound_timer _ _ Hsound). exact Htimer.
Qed.

(** X21. An object made without a join interval never sets the timer of the
    periodic join. *)
Theorem no_interval_no_timer (command scribeCategory : string) (w : World) :
  reachable command scribeCategory None w →
  _joinTimer (this w) = None ∧ ∀ t ms, SetTimeout t AutoJoin ms ∉ effects w.
Proof.
  intros [Hsound _]%reachable_sound.
  pose proof (sound_no_interval _ _ Hsound eq_refl) as Hnever.
  split; [|exact Hnever].
  destruct (_joinTimer (this w)) as [t|] eqn:Htimer; [|reflexivity].
  destruct (sound_timer _ _ Hsound t Htimer) as [_ ((ms & Hset) & _)].
  destruct (Hnever t ms Hset).
Qed.


(** *** The process *)

(** X23. The promise of the process and the subscription are set together and
    cleared together, and the timer of the periodic join is held only
    together with a process. *)
Theorem fields_set_together (command scribeCategory : string) (joinInterval : option Z)
    (w : World) :
  reachable command scribeCategory joinInterval w →
  (is_Some (_childPromise (this w)) ↔ is_Some (_subscription (this w))) ∧
  (is_Some (_joinTimer (this w)) → is_Some (_childPromise (this w))).
Proof.
  intros [Hsound _]%reachable_sound. split.
  - rewrite (sound_fields _ _ Hsound). reflexivity.
  - intros [t Htimer]. apply (sound_timer _ _ Hsound t Htimer).
Qed.

(** X24. The process the object holds was started and its stream has not
    ended: a process that ended is never written to through the object. *)
Theorem process_in_use_runs (command scribeCategory : string) (joinInterval : option Z)
    (w : World) (p : nat) :
  reachable command scribeCategory joinInterval w →
  _childPromise (this w) = Some p → running w p.
Proof. intros [_ Hrefers]%reachable_sound. apply Hrefers. Qed.

(** X25. [join] called again before a [write] does nothing. *)
Theorem join_idempotent (w : World) : join (join w).1 = ((join w).1, None).
Proof.
  unfold join at 2 3.
  destruct (_childPromise (this w)) eqn:Hchild, (_subscription (this w)) eqn:Hsub;
    cbn [fst]; unfold join; rewrite ?Hchild, ?Hsub; reflexivity.
Qed.

(** X26. The first [write] after a [join] starts a new process, different from
    the one joined, with the command and the category of the moment; when the
    stream of the joined process ends afterwards, the new process stays. *)
Theorem write_after_join_restarts (command scribeCategory : string)
    (joinInterval : option Z) (w : World) (p : nat) :
  reachable command scribeCategory joinInterval w → _childPromise (this w) = Some p →
  let w' := (write (join w).1).1 in
  (write (join w).1).2 = next w ∧ next w ≠ p ∧
  _childPromise (this w') = Some (next w) ∧ running w' (next w) ∧
  Spawn (next w) (SCRIBE_CAT_COMMAND w) [_scribeCategory (this w)] ∈ effects w' ∧
  this (finally_callback p (do (Ended p) w')) = this w'.
Proof.
  intros Hreachable Hchild. cbv zeta.
  destruct (reachable_sound _ _ _ _ Hreachable) as [Hsound Hrefers].
  pose proof (running_below _ _ _ Hsound (Hrefers p Hchild)) as Hbelow.
  rewrite (join_drops _ _ _ Hsound Hchild). cbn [fst].
  destruct (write_starts joinInterval (_clear w)) as (Hresult & Hfield & Hrunning & Hspawn);
    [apply sound_clear; exact Hsound|apply refers_clear|reflexivity|].
  rewrite next_clear in *. rewrite command_clear, category_clear in Hspawn.
  split; [exact Hresult|]. split; [lia|]. split; [exact Hfield|].
  split; [exact Hrunning|]. split; [exact Hspawn|].
  unfold finally_callback. cbn [do this]. rewrite Hfield.
  rewrite bool_decide_false by (intros [=]; lia). reflexivity.
Qed.


(** X28. [setScribeCatCommand] returns the command it replaces and leaves the
    process in use alone; the new command is the one of the process the
    first [write] after a [join] starts. *)
Theorem setScribeCatCommand_on_restart (command scribeCategory : string)
    (joinInterval : option Z) (w : World) (p : nat) (newCommand : string) :
  reachable command scribeCategory joinInterval w → _childPromise (this w) = Some p →
  let w1 := (setScribeCatCommand newCommand w).1 in
  (setScribeCatCommand newCommand w).2 = SCRIBE_CAT_COMMAND w ∧
  write w1 = (w1, p) ∧
  Spawn (next w) newCommand [_scribeCategory (this w)] ∈ effects (write (join w1).1).1.
Proof.
  intros Hreachable Hchild. cbv zeta.
  destruct (reachable_sound _ _ _ _ Hreachable) as [Hsound Hrefers].
  destruct (sound_setScribeCatCommand _ _ newCommand Hsound Hrefers) as [Hsound1 Hrefers1].
  set (w1 := (setScribeCatCommand newCommand w).1) in *.
  assert (Hchild1 : _childPromise (this w1) = Some p) by exact Hchild.
  split; [reflexivity|]. split.
  - unfold write, _getChildProcess. rewrite Hchild1. reflexivity.
  - rewrite (join_drops _ _ _ Hsound1 Hchild1). cbn [fst].
    destruct (write_starts joinInterval (_clear w1)) as (_ & _ & _ & Hspawn);
      [apply sound_clear; exact Hsound1|apply refers_clear|reflexivity|].
    rewrite next_clear, command_clear, category_clear in Hspawn. exact Hspawn.
Qed.

(** *** The properties on runs *)

(** An object as made on Mac OS, the same after a [join] and a [write], and
    an object as made elsewhere after a [write]. *)
Definition started : World := constructor "scribe_cat" "cat" (Some 60000).

Definition restarted : World := (write (join started).1).1.

Definition without_interval : World := (write (constructor "scribe_cat" "cat" None)).1.

Lemma started_reachable : reachable "scribe_cat" "cat" (Some 60000) started.
Proof. apply reachable_constructor. Qed.

Lemma restarted_reachable : reachable "scribe_cat" "cat" (Some 60000) restarted.
Proof.
  eapply reachable_step; [|apply step_write].
  eapply reachable_step; [|apply step_join].
  apply reachable_constructor.
Qed.

Lemma without_interval_reachable : reachable "scribe_cat" "cat" None without_interval.
Proof. eapply reachable_step; [|apply step_write]. apply reachable_constructor. Qed.

Lemma one_join_timer_witness :
  reachable "scribe_cat" "cat" (Some 60000) restarted ∧
  (pending restarted 3 AutoJoin ↔ _joinTimer (this restarted) = Some 3%nat) ∧
  (pending restarted 1 AutoJoin ↔ _joinTimer (this restarted) = Some 1%nat).
Proof.
  split; [exact restarted_reachable|].
  split; apply (one_join_timer "scribe_cat" "cat" (Some 60000) restarted);
    exact restarted_reachable.
Defined.

Lemma no_interval_no_timer_witness :
  reachable "scribe_cat" "cat" None without_interval ∧
  _joinTimer (this without_interval) = None ∧
  ∀ t ms, SetTimeout t AutoJoin ms ∉ effects without_interval.
Proof.
  split; [exact without_interval_reachable|].
  apply (no_interval_no_timer "scribe_cat" "cat" without_interval).
  exact without_interval_reachable.
Defined.



Lemma fields_set_together_witness :
  reachable "scribe_cat" "cat" (Some 60000) restarted ∧
  (is_Some (_childPromise (this restarted)) ↔ is_Some (_subscription (this restarted))) ∧
  (is_Some (_joinTimer (this restarted)) → is_Some (_childPromise (this restarted))).
Proof.
  split; [exact restarted_reachable|].
  exact (fields_set_together "scribe_cat" "cat" (Some 60000) restarted restarted_reachable).
Defined.

Lemma process_in_use_runs_witness :
  reachable "scribe_cat" "cat" (Some 60000) restarted ∧
  _childPromise (this restarted) = Some 2%nat ∧ running restarted 2.
Proof.
  assert (Hchild : _childPromise (this restarted) = Some 2%nat) by reflexivity.
  split; [exact restarted_reachable|]. split; [exact Hchild|].
  exact (process_in_use_runs "scribe_cat" "cat" (Some 60000) restarted 2
           restarted_reachable Hchild).
Defined.

Lemma write_after_join_restarts_witness :
  reachable "scribe_cat" "cat" (Some 60000) started ∧
  _childPromise (this started) = Some 0%nat ∧
  (write (join started).1).2 = next started ∧ next started ≠ 0%nat ∧
  _childPromise (this restarted) = Some (next started) ∧
  running restarted (next started) ∧
  Spawn (next started) (SCRIBE_CAT_COMMAND started) [_scribeCategory (this started)]
  ∈ effects restarted ∧
  this (finally_callback 0 (do (Ended 0) restarted)) = this restarted.
Proof.
  assert (Hchild : _childPromise (this started) = Some 0%nat) by reflexivity.
  split; [exact started_reachable|]. split; [exact Hchild|].
  exact (write_after_join_restarts "scribe_cat" "cat" (Some 60000) started 0
           started_reachable Hchild).
Defined.


Lemma setScribeCatCommand_on_restart_witness :
  reachable "scribe_cat" "cat" (Some 60000) started ∧
  _childPromise (this started) = Some 0%nat ∧
  (setScribeCatCommand "tee" started).2 = SCRIBE_CAT_COMMAND started ∧
  write (setScribeCatCommand "tee" started).1 = ((setScribeCatCommand "tee" started).1, 0%nat) ∧
  Spawn (next started) "tee" [_scribeCategory (this started)]
  ∈ effects (write (join (setScribeCatCommand "tee" started).1).1).1.
Proof.
  assert (Hchild : _childPromise (this started) = Some 0%nat) by reflexivity.
  split; [exact started_reachable|]. split; [exact Hchild|].
  exact (setScribeCatCommand_on_restart "scribe_cat" "cat" (Some 60000) started 0 "tee"
           started_reachable Hchild).
Defined.

End Scribe.
